(** * Fledermaus core: the document transform pipeline

    A shallow embedding of [src/core.js] (path helpers, page parsing, config
    merging, grouping, pagination, render context and page generation) and
    the properties its specification states about it.

    JavaScript objects used as maps are finite maps keyed by strings, strings
    are sequences of one-byte characters, and numbers are integers (the
    pipeline only counts, slices and prints them). The object that grouping
    fills is the exception: there the members that a plain object inherits
    are modelled, since the keys are data. *)

From Stdlib Require Import ZArith Ascii DecimalString DecimalZ DecimalPos.
From stdpp Require Import base gmap strings list fin_maps.

Set Default Proof Using "Type".
#[local] Set Warnings "-register-all,-clear-no-such-hyp".

(** ** Strings *)

Module Str.

(** [strip_prefix p s] is the rest of [s] after its prefix [p]. *)
Fixpoint strip_prefix (p s : string) : option string :=
  match p, s with
  | EmptyString, _ => Some s
  | String a p', String b s' =>
      if decide (a = b) then strip_prefix p' s' else None
  | String _ _, EmptyString => None
  end.

(** [strip_suffix q s] is what precedes the suffix [q] of [s]. *)
Definition strip_suffix (q s : string) : option string :=
  String.rev <$> strip_prefix (String.rev q) (String.rev s).

(** [cut_at sep s] finds the leftmost occurrence of [sep] in [s] and
    returns the text before it and the text after it. *)
Fixpoint cut_at (sep s : string) : option (string * string) :=
  match strip_prefix sep s with
  | Some rest => Some (EmptyString, rest)
  | None =>
      match s with
      | EmptyString => None
      | String c s' =>
          match cut_at sep s' with
          | Some (a, b) => Some (String c a, b)
          | None => None
          end
      end
  end.

(** The piece of [s] before the next separator, or all of [s]. *)
Definition up_to (sep s : string) : string :=
  match cut_at sep s with
  | Some (a, _) => a
  | None => s
  end.

(** [contains sep s]: [sep] occurs in [s]. *)
Definition contains (sep s : string) : bool :=
  match cut_at sep s with Some _ => true | None => false end.

(** [String.prototype.replace] with a string pattern (or a regular
    expression without the [g] flag that matches one literal): only the
    leftmost occurrence is replaced. *)
Definition replace_first (pat by_ s : string) : string :=
  match cut_at pat s with
  | Some (a, b) => a +:+ by_ +:+ b
  | None => s
  end.

Fixpoint chars (s : string) : list string :=
  match s with
  | EmptyString => []
  | String c s' => String c EmptyString :: chars s'
  end.

Fixpoint split_from (fuel : nat) (sep s : string) : list string :=
  match cut_at sep s with
  | None => [s]
  | Some (a, rest) =>
      a :: match fuel with
           | O => []
           | S fuel' => split_from fuel' sep rest
           end
  end.

(** [String.prototype.split] with a string separator and no limit. Every
    cut consumes at least one character of a non-empty separator, so the
    length of the string is fuel enough. *)
Definition split (sep s : string) : list string :=
  if decide (sep = EmptyString) then chars s
  else split_from (String.length s) sep s.

(** White space of [String.prototype.trim] among one-byte characters: tab,
    line feed, vertical tab, form feed, carriage return, space and the
    no-break space. *)
Definition is_white (c : ascii) : bool :=
  match c with
  | "009" | "010" | "011" | "012" | "013" | " " | "160" => true
  | _ => false
  end%char.

Fixpoint trim_start (s : string) : string :=
  match s with
  | EmptyString => EmptyString
  | String c s' => if is_white c then trim_start s' else s
  end.

Definition trim_end (s : string) : string :=
  String.rev (trim_start (String.rev s)).

Definition trim (s : string) : string := trim_end (trim_start s).

(** Word characters of the regular expression class [\w]. *)
Definition is_word (c : ascii) : bool :=
  let n := Ascii.N_of_ascii c in
  ((48 <=? n) && (n <=? 57) || (65 <=? n) && (n <=? 90)
   || (97 <=? n) && (n <=? 122) || (n =? 95))%N.

(** [span_word s] splits [s] after its longest prefix of word characters. *)
Fixpoint span_word (s : string) : string * string :=
  match s with
  | EmptyString => (EmptyString, EmptyString)
  | String c s' =>
      if is_word c
      then let '(w, r) := span_word s' in (String c w, r)
      else (EmptyString, s)
  end.

(** Every character of [s] satisfies [p]. *)
Fixpoint all_chars (p : ascii → bool) (s : string) : bool :=
  match s with
  | EmptyString => true
  | String c s' => p c && all_chars p s'
  end.

Definition is_slash (c : ascii) : bool := bool_decide (c = "/"%char).

(** [s] starts with a slash. *)
Definition starts_with_slash (s : string) : bool :=
  match s with
  | String c _ => is_slash c
  | EmptyString => false
  end.

(** No two slashes of [s] are adjacent. *)
Fixpoint double_slash_free (s : string) : bool :=
  match s with
  | EmptyString => true
  | String c s' =>
      negb (is_slash c && starts_with_slash s') && double_slash_free s'
  end.

(** Decimal rendering of an integer, as [String(n)] does for the integers
    that a number holds exactly, the safe integers below [2 ^ 53] in absolute
    value. *)
Definition of_Z (n : Z) : string := NilZero.string_of_int (Z.to_int n).

End Str.

(** ** Path helpers *)

(** [split_extension f] separates a trailing [.ext] ([ext] a non-empty run of
    word characters reaching the end of [f]) from what precedes it. *)
Definition split_extension (filename : string) : string * string :=
  match Str.span_word (String.rev filename) with
  | (String c w, String "." rest) => (String.rev rest, String.rev (String c w))
  | _ => (filename, EmptyString)
  end.

(** Modelled from the spec: [removeExtension] of [src/util.js], which is not
    among the sources; the specification has it strip the file extension. *)
Definition removeExtension (filename : string) : string :=
  (split_extension filename).1.

(** Modelled from the spec: [getExtension] of [src/util.js], which is not
    among the sources; the specification has it give the file's extension,
    empty when there is none. *)
Definition getExtension (filename : string) : string :=
  (split_extension filename).2.

(** [url.replace(/\/index$/, '')] *)
Definition strip_index (url : string) : string :=
  default url (Str.strip_suffix "/index" url).

Definition filepathToUrl (filepath : string) : string :=
  let url := "/" +:+ removeExtension filepath in
  let url := strip_index url in
  if decide (url = "") then "/" else url.

(** ** Values and objects *)

(** Front-matter and configuration data: what a YAML or JSON document holds,
    plus [undefined]. *)
Inductive value :=
  | VUndef
  | VNull
  | VBool (b : bool)
  | VNum (n : Z)
  | VStr (s : string)
  | VArr (l : list value)
  | VObj (o : gmap string value).

Abbreviation obj := (gmap string value).

(** [o[k]]: a missing property reads as [undefined]. *)
Definition get (o : obj) (k : string) : value := default VUndef (o !! k).

(** JavaScript truthiness. *)
Definition truthy (v : value) : bool :=
  match v with
  | VUndef | VNull => false
  | VBool b => b
  | VNum n => negb (n =? 0)%Z
  | VStr s => negb (bool_decide (s = ""))
  | VArr _ | VObj _ => true
  end.

(** [String(v)], which is also how a value becomes a property key and how a
    template literal prints it. *)
Fixpoint to_string (v : value) : string :=
  match v with
  | VUndef => "undefined"
  | VNull => "null"
  | VBool true => "true"
  | VBool false => "false"
  | VNum n => Str.of_Z n
  | VStr s => s
  | VArr l =>
      String.concat ","
        ((fix elements (l : list value) : list string :=
            match l with
            | [] => []
            | x :: l' =>
                match x with
                | VUndef | VNull => ""
                | _ => to_string x
                end :: elements l'
            end) l)
  | VObj _ => "[object Object]"
  end.

(** [v === s] for a string literal [s]. *)
Definition is_string (s : string) (v : value) : bool :=
  match v with
  | VStr s' => bool_decide (s' = s)
  | _ => false
  end.

(** [_.isEmpty] on an object. *)
Definition isEmpty {A} (m : gmap string A) : bool := bool_decide (size m = 0).

(** [Object.keys(m).reduce((acc, k) => { acc[k] = f(m[k]); return acc }, init)] *)
Definition assign_each {A B} (f : A → B) (m : gmap string A)
    (init : gmap string B) : gmap string B :=
  foldl (λ acc kv, <[kv.1 := f kv.2]> acc) init (map_to_list m).

(** ** Errors *)

Inductive error :=
  | ConfigError (msg : string)
  | TypeError (msg : string).

Inductive result (A : Type) :=
  | Ok (a : A)
  | Throw (e : error).
Arguments Ok {A} a.
Arguments Throw {A} e.

#[export] Instance result_ret : MRet result := @Ok.
#[export] Instance result_bind : MBind result := λ A B f m,
  match m with
  | Ok a => f a
  | Throw e => Throw e
  end.

#[export] Instance result_fmap : FMap result := λ A B f m,
  match m with
  | Ok a => Ok (f a)
  | Throw e => Throw e
  end.

(** [if (!ok) throw e] *)
Definition unless_throw (ok : bool) (e : error) : result unit :=
  if ok then Ok () else Throw e.

Definition dquote : string := String "034"%char "".
Definition quoted (s : string) : string := dquote +:+ s +:+ dquote.

(** ** DocumentParser *)

Definition renderByType (source filepath : string)
    (renderers : gmap string (string → string)) : string :=
  let extension := getExtension filepath in
  match renderers !! extension with
  | Some render => render source
  | None => source
  end.

Abbreviation field_parser := (value → obj → value)%type.

Definition parseCustomFields (attributes : obj)
    (fieldParsers : gmap string field_parser) : obj :=
  let parsedAttributes :=
    map_imap (λ name parse, Some (parse (get attributes name) attributes))
      fieldParsers in
  (* {...attributes, ...parsedAttributes}: the later spread wins *)
  parsedAttributes ∪ attributes.

Record parse_options := {
  renderers : gmap string (string → string);
  fieldParsers : gmap string field_parser;
  cutTag : option string;
}.

(** [piece && piece.trim()] on a string that may be [undefined]. *)
Definition and_trim (piece : option string) : value :=
  match piece with
  | None => VUndef
  | Some s => VStr (if decide (s = "") then s else Str.trim s)
  end.

Section DocumentParser.
(** The front-matter library: raw source to attributes and body. *)
Variable fastmatter : string → obj * string.

Definition parsePage (source filepath : string) (options : parse_options)
    : obj :=
  let '(attributes, body) := fastmatter source in
  let url := filepathToUrl filepath in
  let content := renderByType body filepath (renderers options) in
  let pieces :=
    match cutTag options with
    | Some tag => if decide (tag = "") then [] else Str.split tag content
    | None => []
    end in
  let excerpt := pieces !! 0%nat in
  let more := pieces !! 1%nat in
  let extendedAttributes : obj :=
    <["url" := VStr url]>
      (<["more" := and_trim more]>
         (<["excerpt" := and_trim excerpt]>
            (<["content" := and_trim (Some content)]>
               (<["sourcePath" := VStr filepath]> attributes)))) in
  parseCustomFields extendedAttributes (fieldParsers options).

End DocumentParser.

(** ** ConfigLoader *)

Record configs := {
  base : obj;
  langs : gmap string obj;
}.

Definition mergeConfigs (c : configs) : gmap string obj :=
  let baseConfig : gmap string obj := {[ "base" := base c ]} in
  if isEmpty (langs c) then baseConfig
  else
    (* {...configs.base, ...langs[lang]}: the later spread wins *)
    assign_each (λ lang_config : obj, lang_config ∪ base c) (langs c) baseConfig.

(** ** DocumentQuery: grouping *)

Inductive group_field :=
  | ByName (name : string)
  | ByFunction (f : obj → value).

(** The names that the grouping object, a plain [{}], inherits from
    [Object.prototype]: each reads as a function (the prototype itself for
    [__proto__]), which is truthy and has no [push]. *)
Definition object_prototype_names : list string :=
  ["constructor"; "__defineGetter__"; "__defineSetter__"; "hasOwnProperty";
   "__lookupGetter__"; "__lookupSetter__"; "isPrototypeOf";
   "propertyIsEnumerable"; "toString"; "valueOf"; "__proto__";
   "toLocaleString"].

Definition inherited (key : string) : bool :=
  bool_decide (key ∈ object_prototype_names).

(** Calling [push], which an inherited member lacks. *)
Definition not_a_function : error :=
  TypeError "grouped[key].push is not a function".

(** [if (!grouped[key]) grouped[key] = []; grouped[key].push(document)]:
    [grouped[key]] reads the group when there is one, else what the object
    inherits under that name. *)
Definition push_to (key : string) (document : obj)
    (grouped : gmap string (list obj)) : result (gmap string (list obj)) :=
  match grouped !! key with
  | Some group => Ok (<[key := group ++ [document]]> grouped)
  | None =>
      if inherited key then Throw not_a_function
      else Ok (<[key := [document]]> grouped)
  end.

Definition group_step (field : group_field)
    (grouped : gmap string (list obj)) (document : obj)
    : result (gmap string (list obj)) :=
  (* a function has no property of its name in a document *)
  let value :=
    match field with
    | ByName name => get document name
    | ByFunction _ => VUndef
    end in
  match value with
  | VArr subValues =>
      foldl
        (λ so_far subValue,
           grouped ← so_far; push_to (to_string subValue) document grouped)
        (Ok grouped) subValues
  | _ =>
      let value :=
        match field with
        | ByFunction f => f document
        | ByName _ => value
        end in
      if truthy value then push_to (to_string value) document grouped
      else Ok grouped
  end.

Definition groupDocuments (documents : list obj) (field : group_field)
    : result (gmap string (list obj)) :=
  foldl (λ so_far document, grouped ← so_far; group_step field grouped document)
    (Ok ∅) documents.

(** ** Paginator *)

Definition getPageNumberUrl (urlPrefix : string) (pageNumber : Z)
    (index : bool) : string :=
  let url :=
    if decide (pageNumber = 1%Z) then
      if index then urlPrefix +:+ "/index" else urlPrefix
    else urlPrefix +:+ "/page/" +:+ Str.of_Z pageNumber in
  Str.replace_first "//" "/" url.

Record paginate_options := {
  sourcePathPrefix : option string;
  urlPrefix : option string;
  documentsPerPage : option Z;
  layout : option string;
  index : bool;
  extra : obj;
}.

(** [Math.ceil(a / b)] on integers, [b] not zero. *)
Definition ceil_div (a b : Z) : Z := (- ((- a) `div` b))%Z.

(** [_.range(n)]: counts up to [n] from zero, or down to it when negative. *)
Definition range (n : Z) : list Z :=
  if decide (0 ≤ n)%Z then seqZ 0 n else Z.opp <$> seqZ 0 (- n).

(** [Array.prototype.slice(begin, end)]; a negative index counts from the
    end. *)
Definition slice {A} (l : list A) (begin end_ : Z) : list A :=
  let len := Z.of_nat (length l) in
  let clamp i := if decide (i < 0)%Z then Z.max (len + i) 0 else Z.min i len in
  let from := clamp begin in
  take (Z.to_nat (clamp end_ - from)) (drop (Z.to_nat from) l).

Definition not_specified (name : string) : error :=
  ConfigError (quoted name +:+ " not specified for paginate().").

Definition nullable (url : option string) : value :=
  match url with
  | Some u => VStr u
  | None => VNull
  end.

(** An option that must be given: [undefined], or a value the check takes
    for missing, throws. *)
Definition specified {A} (name : string) (given : A → bool)
    (v : option A) : result A :=
  match v with
  | Some a => if given a then Ok a else Throw (not_specified name)
  | None => Throw (not_specified name)
  end.

Definition pagination_page (documents : list obj) (options : paginate_options)
    (sourcePathPrefix urlPrefix : string) (documentsPerPage : Z)
    (layout : string) (totalPages pageNumber : Z) : obj :=
  let pageNumber := (pageNumber + 1)%Z in
  let sourcePath :=
    getPageNumberUrl sourcePathPrefix pageNumber (index options) in
  let url := getPageNumberUrl urlPrefix pageNumber false in
  let begin := ((pageNumber - 1) * documentsPerPage)%Z in
  let previousUrl :=
    if decide (pageNumber > 1)%Z
    then Some (getPageNumberUrl urlPrefix (pageNumber - 1)%Z false)
    else None in
  let nextUrl :=
    if decide (pageNumber < totalPages)%Z
    then Some (getPageNumberUrl urlPrefix (pageNumber + 1)%Z false)
    else None in
  let slice_ := slice documents begin (begin + documentsPerPage)%Z in
  (* the spread of [extra] comes first, so every fixed field overrides it *)
  <["url" := VStr url]>
    (<["layout" := VStr layout]>
       (<["sourcePath" := VStr sourcePath]>
          (<["documentsTotal" := VNum (Z.of_nat (length documents))]>
             (<["documents" := VArr (VObj <$> slice_)]>
                (<["nextUrl" := nullable nextUrl]>
                   (<["previousUrl" := nullable previousUrl]>
                      (extra options))))))).

Definition paginate (documents : list obj) (options : paginate_options)
    : result (list obj) :=
  sourcePathPrefix ←
    specified "sourcePathPrefix" (λ _, true) (sourcePathPrefix options);
  urlPrefix ← specified "urlPrefix" (λ _, true) (urlPrefix options);
  documentsPerPage ←
    specified "documentsPerPage" (λ n, negb (n =? 0)%Z)
      (documentsPerPage options);
  layout ←
    specified "layout" (λ s, negb (bool_decide (s = ""))) (layout options);
  let totalPages :=
    ceil_div (Z.of_nat (length documents)) documentsPerPage in
  mret (pagination_page documents options sourcePathPrefix urlPrefix
          documentsPerPage layout totalPages
        <$> range totalPages).

(** ** PageRenderer *)

Record page := {
  pagePath : string;
  content : string;
}.

Section PageRenderer.
(** Helper functions are opaque to the pipeline, which only binds them. *)
Context {helper : Type}.

(** An entry of the render context: a plain value, or a helper bound to the
    context that holds it. *)
Inductive context_entry :=
  | Field (v : value)
  | BoundHelper (h : helper).

Abbreviation context := (gmap string context_entry).

Definition makeContext (document : obj) (config : value)
    (helpers : gmap string helper) : context :=
  (* {config, ...document}: the later spread wins *)
  let context : context := (Field <$> document) ∪ {[ "config" := Field config ]} in
  assign_each BoundHelper helpers context.

(** The feed serializer. *)
Variable renderRss : context → string.

(** A string helper applied to something that is not a string fails. *)
Definition as_string (v : value) : result string :=
  match v with
  | VStr s => Ok s
  | _ => Throw (TypeError "not a string")
  end.

Definition generatePage (document : obj) (config : value)
    (helpers : gmap string helper)
    (renderers : list (string * (string → context → string)))
    : result page :=
  let sourcePath := get document "sourcePath" in
  let layout := get document "layout" in
  unless_throw (truthy sourcePath)
    (ConfigError ("Source path not specified. Add " +:+ quoted "sourcePath"
                  +:+ " front matter field."));;
  unless_throw (truthy layout)
    (ConfigError ("Layout not specified for " +:+ to_string sourcePath
                  +:+ ". Add " +:+ quoted "layout"
                  +:+ " front matter field."));;
  pagePath ← removeExtension <$> as_string sourcePath;
  let pageContext := makeContext document config helpers in
  if is_string "RSS" layout then
    mret {| pagePath := pagePath +:+ ".xml";
            content := renderRss pageContext |}
  else
    (* _.toPairs(renderers).shift() *)
    match renderers with
    | [] => Throw (TypeError "undefined is not iterable")
    | (templateExtension, render) :: _ =>
        let templateFile := to_string layout +:+ "." +:+ templateExtension in
        let content := render templateFile pageContext in
        extension ← getExtension <$> as_string layout;
        let pageExtension :=
          if decide (extension = "") then "html" else extension in
        mret {| pagePath := pagePath +:+ "." +:+ pageExtension;
                content := content |}
    end.

Definition generatePages (documents : list obj) (config : value)
    (helpers : gmap string helper)
    (renderers : list (string * (string → context → string)))
    : result (list page) :=
  mapM (λ document, generatePage document config helpers renderers) documents.

End PageRenderer.
Arguments context_entry : clear implicits.

(** ** DocumentQuery: filtering *)

(** A literal that a field is compared with by [!==]; on anything but a
    primitive that comparison is one of references. *)
Inductive primitive :=
  | PUndef
  | PNull
  | PBool (b : bool)
  | PNum (n : Z)
  | PStr (s : string).

(** What a field is filtered by: a function, a regular expression (one
    without the [g] and [y] flags, whose [test] keeps no state, given by the
    texts it matches), or a literal. *)
Inductive field_filter :=
  | ByPredicate (f : value → value)
  | ByRegExp (test : string → bool)
  | ByLiteral (p : primitive).

(** [documentValue === p] *)
Definition strict_equal (documentValue : value) (p : primitive) : bool :=
  match documentValue, p with
  | VUndef, PUndef | VNull, PNull => true
  | VBool a, PBool b => bool_decide (a = b)
  | VNum a, PNum b => bool_decide (a = b)
  | VStr a, PStr b => bool_decide (a = b)
  | _, _ => false
  end.

(** One turn of the loop over [fields]: [false] is the early [return false];
    [RegExp.prototype.test] turns its argument into a string. *)
Definition field_passes (by_ : field_filter) (documentValue : value) : bool :=
  match by_ with
  | ByPredicate f => truthy (f documentValue)
  | ByRegExp test => test (to_string documentValue)
  | ByLiteral p => strict_equal documentValue p
  end.

Definition document_passes (fields : gmap string field_filter)
    (document : obj) : bool :=
  forallb (λ kv, field_passes kv.2 (get document kv.1)) (map_to_list fields).

Definition filterDocuments (documents : list obj)
    (fields : gmap string field_filter) : list obj :=
  filter (λ document, document_passes fields document) documents.

(** ** ConfigLoader: reading the files *)

Section ConfigLoader.
(** [path.basename], [path.join], [glob.sync] and the YAML reader. *)
Variable basename : string → string.
Variable path_join : string → string → string.
Variable glob_sync : string → list string.
Variable readYamlFile : string → obj.

Definition getConfigFilesList (folder : string) : list string :=
  glob_sync (path_join folder "*.yml").

Definition readConfigFiles (files : list string) : configs :=
  foldl
    (λ configs filepath,
       let name := removeExtension (basename filepath) in
       if decide (name = "base")
       then {| base := readYamlFile filepath; langs := langs configs |}
       else {| base := base configs;
               langs := <[name := readYamlFile filepath]> (langs configs) |})
    {| base := ∅; langs := ∅ |} files.

Definition loadConfig (folder : string) : gmap string obj :=
  let files := getConfigFilesList folder in
  let configs := readConfigFiles files in
  mergeConfigs configs.

End ConfigLoader.

(** ** DocumentRepository *)

Section DocumentRepository.
(** The front-matter library, [glob.sync(mask, { cwd })], [readFile],
    [path.join] and [path.resolve]. *)
Variable fastmatter : string → obj * string.
Variable glob_sync_in : string → string → list string.
Variable readFile : string → string.
Variable path_join : string → string → string.
Variable path_resolve : string → string.

Definition getSourceFilesList (folder : string) (types : list string)
    : list string :=
  let typesMask :=
    if decide (1 < length types)
    then "{" +:+ String.concat "," types +:+ "}"
    else default "undefined" (head types) in
  let mask := "**/*." +:+ typesMask in
  glob_sync_in mask folder.

(** The documents, and what [console.warn] printed. *)
Definition loadSourceFiles (folder : string) (types : list string)
    (options : parse_options) : list obj * list string :=
  let files := getSourceFilesList folder types in
  let warnings :=
    if decide (length files = 0)
    then ["No source files found in a folder " +:+ path_resolve folder
          +:+ " with types " +:+ String.concat ", " types]
    else [] in
  ((λ filepath,
      let source := readFile (path_join folder filepath) in
      parsePage fastmatter source filepath options) <$> files,
   warnings).

End DocumentRepository.

(** ** Vocabulary of the statements *)

(** The value that decides the groups of a document. *)
Definition group_value (field : group_field) (document : obj) : value :=
  match field with
  | ByName name => get document name
  | ByFunction f => f document
  end.

(** The keys of the groups a document belongs to: one per element of a
    sequence, one for any other truthy value, none for a falsy one. *)
Definition group_keys (field : group_field) (document : obj) : list string :=
  match field, group_value field document with
  | ByName _, VArr subValues => to_string <$> subValues
  | _, v => if truthy v then [to_string v] else []
  end.

(** An option that [paginate] takes for not specified: an absent one, and
    also a [documentsPerPage] of zero or an empty [layout]. *)
Definition unspecified (options : paginate_options) (name : string) : Prop :=
  (name = "sourcePathPrefix" ∧ sourcePathPrefix options = None)
  ∨ (name = "urlPrefix" ∧ urlPrefix options = None)
  ∨ (name = "documentsPerPage"
     ∧ (documentsPerPage options = None ∨ documentsPerPage options = Some 0%Z))
  ∨ (name = "layout" ∧ (layout options = None ∨ layout options = Some "")).

(** How many documents a pagination page holds. *)
Definition page_size (page : obj) : option nat :=
  match page !! "documents" with
  | Some (VArr documents) => Some (length documents)
  | _ => None
  end.

(** [document] is in the group [key] of [grouped]. *)
Definition in_group (grouped : gmap string (list obj)) (key : string)
    (document : obj) : Prop :=
  ∃ group, grouped !! key = Some group ∧ document ∈ group.

(** What C2 asks of nested maps: a key that only the base's nested map has
    survives in the merged nested map. *)
Definition merges_nested_maps : Prop :=
  ∀ (c : configs) lang (lang_config base_map lang_map : obj) key key' v,
    langs c !! lang = Some lang_config →
    base c !! key = Some (VObj base_map) →
    lang_config !! key = Some (VObj lang_map) →
    base_map !! key' = Some v →
    lang_map !! key' = None →
    ∃ merged merged_map : obj,
      mergeConfigs c !! lang = Some merged
      ∧ merged !! key = Some (VObj merged_map)
      ∧ merged_map !! key' = Some v.

(** What grouping does as long as no key is an inherited name: the push, the
    step for one document and the whole pass, none of which can fail. *)
Definition push_plain (key : string) (document : obj)
    (grouped : gmap string (list obj)) : gmap string (list obj) :=
  <[key := default [] (grouped !! key) ++ [document]]> grouped.

Definition group_step_plain (field : group_field)
    (grouped : gmap string (list obj)) (document : obj)
    : gmap string (list obj) :=
  let value :=
    match field with
    | ByName name => get document name
    | ByFunction _ => VUndef
    end in
  match value with
  | VArr subValues =>
      foldl (λ grouped subValue, push_plain (to_string subValue) document grouped)
        grouped subValues
  | _ =>
      let value :=
        match field with
        | ByFunction f => f document
        | ByName _ => value
        end in
      if truthy value then push_plain (to_string value) document grouped
      else grouped
  end.

Definition group_plain (documents : list obj) (field : group_field)
    : gmap string (list obj) :=
  foldl (group_step_plain field) ∅ documents.

(** The values of a document that become keys of groups. *)
Definition group_values (field : group_field) (document : obj) : list value :=
  match field, group_value field document with
  | ByName _, VArr subValues => subValues
  | _, v => if truthy v then [v] else []
  end.

(** A value whose numbers are safe integers: those are the numbers that the
    integers of this model stand for, and they print in full. *)
Fixpoint printable (v : value) : bool :=
  match v with
  | VNum n => bool_decide (Z.abs n < 2 ^ 53)%Z
  | VArr l => forallb printable l
  | _ => true
  end.

(** No key of any document is a name that the grouping object inherits. *)
Definition own_keys (documents : list obj) (field : group_field) : bool :=
  forallb (λ d, forallb (λ key, negb (inherited key)) (group_keys field d))
    documents.

(** Every value that becomes a key is printable. *)
Definition printable_keys (documents : list obj) (field : group_field) : bool :=
  forallb (λ d, forallb printable (group_values field d)) documents.

(** A grouping object that holds no group under an inherited name. *)
Definition no_inherited (grouped : gmap string (list obj)) : Prop :=
  ∀ key, inherited key = true → grouped !! key = None.

(** What a group holds: the documents in their order, each once per
    occurrence of the group's key among its keys. *)
Definition group_members (documents : list obj) (field : group_field)
    (key : string) : list obj :=
  documents ≫= λ d, (λ _, d) <$> filter (λ k, k = key) (group_keys field d).

(** A property of a grouping object: absent when it would be empty. *)
Definition as_group (members : list obj) : option (list obj) :=
  match members with
  | [] => None
  | _ => Some members
  end.

(** The fields that [parsePage] computes. *)
Definition computed_fields : list string :=
  ["sourcePath"; "content"; "excerpt"; "more"; "url"].

(** The documents that a pagination page holds. *)
Definition documents_of (page : obj) : list value :=
  match page !! "documents" with
  | Some (VArr documents) => documents
  | _ => []
  end.

(** The fields that [paginate] sets on a page. *)
Definition page_fields : list string :=
  ["previousUrl"; "nextUrl"; "documents"; "documentsTotal"; "sourcePath";
   "layout"; "url"].

(** [s] ends with a slash. *)
Fixpoint ends_with_slash (s : string) : bool :=
  match s with
  | EmptyString => false
  | String c EmptyString => Str.is_slash c
  | String _ s' => ends_with_slash s'
  end.

(** The files whose name, without folder and extension, is [name]. *)
Definition files_named (basename : string → string) (name : string)
    (files : list string) : list string :=
  filter (λ filepath, removeExtension (basename filepath) = name) files.

(** ** Sample data *)

Definition two_configs : configs :=
  {| base := {[ "title" := VStr "My blog" ]};
     langs := {[ "ru" := {[ "lang" := VStr "ru" ]} ]} |}.

Definition nested_configs : configs :=
  {| base := {[ "a" := VObj {[ "x" := VNum 1; "y" := VNum 2 ]};
                "tags" := VArr [VStr "p"; VStr "q"] ]};
     langs := {[ "en" := {[ "a" := VObj {[ "y" := VNum 3 ]};
                           "tags" := VArr [VStr "r"] ]} ]} |}.

Definition tagged_post : obj :=
  {[ "title" := VStr "A"; "tags" := VArr [VStr "js"; VStr "css"] ]}.

Definition draft_post : obj := {[ "title" := VStr "C" ]}.

Definition posts : list obj :=
  [tagged_post; {[ "title" := VStr "B"; "tags" := VStr "js" ]}; draft_post].

Definition ten_documents : list obj :=
  (λ n, {[ "n" := VNum n ]}) <$> seqZ 0 10.

Definition blog_pagination : paginate_options :=
  {| sourcePathPrefix := Some "blog"; urlPrefix := Some "/blog";
     documentsPerPage := Some 4%Z; layout := Some "pagination";
     index := true; extra := ∅ |}.

Definition no_layout_pagination : paginate_options :=
  {| sourcePathPrefix := Some "blog"; urlPrefix := Some "/blog";
     documentsPerPage := Some 4%Z; layout := None;
     index := true; extra := ∅ |}.

Definition about_page : obj :=
  {[ "sourcePath" := VStr "about.md"; "layout" := VStr "page" ]}.

Definition no_layout_page : obj := {[ "sourcePath" := VStr "about.md" ]}.

(** A template engine that prints the name of the template it is given. *)
Definition echo_renderers
    : list (string * (string → gmap string (context_entry unit) → string)) :=
  [("jsx", λ templateFile _, templateFile)].

Definition echo_rss (_ : gmap string (context_entry unit)) : string := "".

(** A source without front matter. *)
Definition plain_fastmatter (source : string) : obj * string := (∅, source).

Definition cut_options : parse_options :=
  {| renderers := ∅; fieldParsers := ∅; cutTag := Some "<!--more-->" |}.

Definition english_only : gmap string field_filter :=
  {[ "lang" := ByLiteral (PStr "en") ]}.

Definition titled_a : gmap string field_filter :=
  {[ "title" := ByRegExp (λ text, bool_decide (text = "A")) ]}.

Definition titled_source (source : string) : obj * string :=
  ({[ "title" := VStr "Hello"; "url" := VStr "/custom" ]}, source).

(** A parser that reads the URL the page has been given. *)
Definition slug_options : parse_options :=
  {| renderers := ∅;
     fieldParsers := {[ "slug" := λ _ attributes, get attributes "url" ]};
     cutTag := None |}.

Definition root_pagination : paginate_options :=
  {| sourcePathPrefix := Some ""; urlPrefix := Some "/";
     documentsPerPage := Some 4%Z; layout := Some "pagination";
     index := false; extra := {[ "title" := VStr "Blog" ]} |}.

Definition feed_page : obj :=
  {[ "sourcePath" := VStr "feed.md"; "layout" := VStr "RSS" ]}.

Definition two_renderers
    : list (string * (string → gmap string (context_entry unit) → string)) :=
  [("jsx", λ templateFile _, templateFile); ("ect", λ _ _, "unused")].

(** Three config files: the name of a file is what follows the folder. *)
Definition config_basename (filepath : string) : string :=
  default filepath (Str.strip_prefix "config/" filepath).

Definition config_glob (_ : string) : list string :=
  ["config/base.yml"; "config/en.yml"; "config/ru.yml"].

Definition config_yaml (filepath : string) : obj :=
  {[ "file" := VStr filepath ]}.

Definition two_files (mask folder : string) : list string :=
  ["index.md"; "posts/hello.md"].

Definition constructor_post : obj :=
  {[ "title" := VStr "D"; "tags" := VArr [VStr "js"; VStr "constructor"] ]}.

(** * Properties *)

(** ** Strings *)

Module StrFacts.
Import Str.

Lemma app_cons a s t : String a s +:+ t = String a (s +:+ t).
Proof. reflexivity. Qed.

Lemma app_nil_r s : s +:+ "" = s.
Proof. induction s as [|a s IH]; [done|]. by rewrite app_cons, IH. Qed.

Lemma app_assoc s t u : (s +:+ t) +:+ u = s +:+ t +:+ u.
Proof. induction s as [|a s IH]; [done|]. by rewrite !app_cons, IH. Qed.

Lemma app_length s t :
  String.length (s +:+ t) = (String.length s + String.length t)%nat.
Proof. induction s as [|a s IH]; [done|]. rewrite app_cons. simpl. by rewrite IH. Qed.

Lemma length_zero s : String.length s = 0%nat → s = "".
Proof. by destruct s. Qed.

Lemma rev_app_spec s t : String.rev_app s t = String.rev s +:+ t.
Proof.
  unfold String.rev. revert t.
  induction s as [|a s IH]; intros t; [done|]. simpl.
  rewrite IH, (IH (String a "")). by rewrite app_assoc.
Qed.

Lemma rev_cons a s : String.rev (String a s) = String.rev s +:+ String a "".
Proof. unfold String.rev at 1. simpl. apply rev_app_spec. Qed.

Lemma rev_app s t : String.rev (s +:+ t) = String.rev t +:+ String.rev s.
Proof.
  induction s as [|a s IH]; [by rewrite app_nil_r|].
  by rewrite app_cons, !rev_cons, IH, app_assoc.
Qed.

Lemma rev_involutive s : String.rev (String.rev s) = s.
Proof.
  induction s as [|a s IH]; [done|]. by rewrite rev_cons, rev_app, IH.
Qed.

Lemma rev_length s : String.length (String.rev s) = String.length s.
Proof.
  induction s as [|a s IH]; [done|]. rewrite rev_cons, app_length, IH. simpl. lia.
Qed.

Lemma strip_prefix_Some p s r : strip_prefix p s = Some r ↔ s = p +:+ r.
Proof.
  revert s. induction p as [|a p IH]; intros s; simpl.
  - change ("" +:+ r) with r. split; congruence.
  - rewrite app_cons. destruct s as [|b s]; [done|].
    case_decide as Hab; [subst b|].
    + rewrite IH. split; congruence.
    + split; congruence.
Qed.

Lemma strip_prefix_None p s : strip_prefix p s = None → ∀ r, s ≠ p +:+ r.
Proof.
  intros Hnone r Heq. apply strip_prefix_Some in Heq. congruence.
Qed.

Lemma strip_suffix_Some q s r : strip_suffix q s = Some r ↔ s = r +:+ q.
Proof.
  unfold strip_suffix. rewrite fmap_Some. split.
  - intros (x & Hx%strip_prefix_Some & ->).
    rewrite <-(rev_involutive s), Hx, rev_app. by rewrite rev_involutive.
  - intros ->. exists (String.rev r). rewrite rev_involutive. split; [|done].
    apply strip_prefix_Some, rev_app.
Qed.

Lemma strip_suffix_None q s : strip_suffix q s = None → ∀ r, s ≠ r +:+ q.
Proof. intros Hnone r Heq. apply strip_suffix_Some in Heq. congruence. Qed.

Lemma all_chars_app p s t :
  all_chars p (s +:+ t) = all_chars p s && all_chars p t.
Proof.
  induction s as [|c s IH]; [done|].
  rewrite app_cons. cbn. by rewrite IH, andb_assoc.
Qed.

Lemma all_chars_rev p s : all_chars p (String.rev s) = all_chars p s.
Proof.
  induction s as [|c s IH]; [done|].
  rewrite rev_cons, all_chars_app, IH. cbn. by rewrite andb_true_r, andb_comm.
Qed.

Lemma span_word_all w c r :
  all_chars is_word w = true → is_word c = false →
  span_word (w +:+ String c r) = (w, String c r).
Proof.
  intros Hw Hc. induction w as [|a w IH].
  - change ("" +:+ String c r) with (String c r). cbn. by rewrite Hc.
  - cbn in Hw. apply andb_true_iff in Hw as [Ha Hw].
    rewrite app_cons. cbn [span_word]. by rewrite Ha, (IH Hw).
Qed.

End StrFacts.

(** ** PathUtil and the URL of a file *)

Lemma strip_index_suffix p : strip_index (p +:+ "/index") = p.
Proof.
  unfold strip_index.
  by rewrite (proj2 (StrFacts.strip_suffix_Some "/index" _ p) eq_refl).
Qed.

Lemma strip_index_other url :
  (∀ p, url ≠ p +:+ "/index") → strip_index url = url.
Proof.
  intros Hno. unfold strip_index.
  destruct (Str.strip_suffix "/index" url) as [r|] eqn:Hr; [|done].
  apply StrFacts.strip_suffix_Some in Hr. by destruct (Hno r).
Qed.

(** The extension of a file name is the run of word characters after its
    last dot, when that run is not empty and ends the name. *)
Lemma split_extension_dot stem ext :
  ext ≠ "" → Str.all_chars Str.is_word ext = true →
  split_extension (stem +:+ "." +:+ ext) = (stem, ext).
Proof.
  intros Hext Hword. unfold split_extension.
  rewrite StrFacts.rev_app, StrFacts.rev_app, StrFacts.app_assoc.
  change (String.rev "." +:+ String.rev stem) with (String "." (String.rev stem)).
  rewrite StrFacts.span_word_all;
    [|by rewrite StrFacts.all_chars_rev|done].
  destruct (String.rev ext) as [|c w] eqn:Hrev.
  - apply (f_equal String.rev) in Hrev.
    rewrite StrFacts.rev_involutive in Hrev. by destruct Hext.
  - by rewrite <-Hrev, !StrFacts.rev_involutive.
Qed.

Lemma removeExtension_dot stem ext :
  ext ≠ "" → Str.all_chars Str.is_word ext = true →
  removeExtension (stem +:+ "." +:+ ext) = stem
  ∧ getExtension (stem +:+ "." +:+ ext) = ext.
Proof.
  intros Hext Hword. unfold removeExtension, getExtension.
  by rewrite split_extension_dot.
Qed.

(** C7. The URL of a file is ["/"] followed by the path without its
    extension, with a trailing ["/index"] segment removed, and ["/"] when
    nothing is left; so [index.md] is the root, and [posts/foo/index.md] and
    [posts/foo.md] both give [/posts/foo]. *)
Theorem filepathToUrl_spec :
  (∀ filepath : string,
     let stem := "/" +:+ removeExtension filepath in
     (∀ p, stem = p +:+ "/index" →
           filepathToUrl filepath = if decide (p = "") then "/" else p)
     ∧ ((∀ p, stem ≠ p +:+ "/index") → filepathToUrl filepath = stem))
  ∧ filepathToUrl "index.md" = "/"
  ∧ filepathToUrl "posts/foo/index.md" = "/posts/foo"
  ∧ filepathToUrl "posts/foo.md" = "/posts/foo".
Proof.
  split; [|by vm_compute].
  intros filepath stem. unfold filepathToUrl. fold stem. split.
  - intros p ->. by rewrite strip_index_suffix.
  - intros Hno. rewrite strip_index_other by done.
    by rewrite decide_False.
Qed.

Lemma filepathToUrl_spec_witness :
  "/" +:+ removeExtension "posts/index.md" = "/posts" +:+ "/index"
  ∧ filepathToUrl "posts/index.md" = "/posts".
Proof.
  split; [reflexivity|].
  exact (proj1 (proj1 filepathToUrl_spec "posts/index.md") "/posts" eq_refl).
Defined.

(** ** Objects *)

Section assign_each.
Context {A B : Type} (f : A → B).

Lemma foldl_assign_lookup (l : list (string * A)) (init : gmap string B) k :
  NoDup l.*1 →
  foldl (λ acc kv, <[kv.1 := f kv.2]> acc) init l !! k
  = match (list_to_map l : gmap string A) !! k with
    | Some a => Some (f a)
    | None => init !! k
    end.
Proof.
  revert init. induction l as [|[k' a'] l IH]; intros init Hnodup; [done|].
  apply NoDup_cons in Hnodup as [Hfresh Hnodup]. simpl.
  rewrite IH by done.
  destruct (decide (k' = k)) as [->|Hne].
  - rewrite lookup_insert_eq.
    by rewrite (not_elem_of_list_to_map_1 _ _ Hfresh), lookup_insert_eq.
  - by rewrite !lookup_insert_ne.
Qed.

Lemma lookup_assign_each (m : gmap string A) (init : gmap string B) k :
  assign_each f m init !! k
  = match m !! k with
    | Some a => Some (f a)
    | None => init !! k
    end.
Proof.
  unfold assign_each.
  rewrite foldl_assign_lookup by apply NoDup_fst_map_to_list.
  by rewrite list_to_map_to_list.
Qed.

End assign_each.

Lemma isEmpty_true {A} (m : gmap string A) : isEmpty m = true ↔ m = ∅.
Proof.
  unfold isEmpty. rewrite bool_decide_eq_true. apply map_size_empty_iff.
Qed.

(** ** ConfigLoader *)

(** Every key of the merged result, whether or not languages exist. *)
Lemma lookup_mergeConfigs (c : configs) (key : string) :
  mergeConfigs c !! key
  = match langs c !! key with
    | Some lang_config => Some (lang_config ∪ base c)
    | None => if decide (key = "base") then Some (base c) else None
    end.
Proof.
  unfold mergeConfigs. destruct (isEmpty (langs c)) eqn:Hempty.
  - apply isEmpty_true in Hempty. rewrite Hempty, lookup_empty.
    case_decide as Hkey; [subst key; apply lookup_singleton_eq|].
    by apply lookup_singleton_ne.
  - rewrite lookup_assign_each. destruct (langs c !! key); [done|].
    case_decide as Hkey; [subst key; apply lookup_singleton_eq|].
    by apply lookup_singleton_ne.
Qed.

(** C1, as amended. With at least one language the merged result has one key
    per language code, holding that language's config over the base config,
    and the key [base] as well, holding the base config; without languages
    it is the single-key object that exposes the base config. *)
Theorem mergeConfigs_shape (c : configs) :
  dom (mergeConfigs c) = {[ "base" ]} ∪ dom (langs c)
  ∧ (∀ lang lang_config,
       langs c !! lang = Some lang_config →
       mergeConfigs c !! lang = Some (lang_config ∪ base c))
  ∧ (langs c !! "base" = None → mergeConfigs c !! "base" = Some (base c))
  ∧ (langs c = ∅ → mergeConfigs c = {[ "base" := base c ]}).
Proof.
  split_and!.
  - apply set_eq. intros key.
    rewrite elem_of_union, elem_of_singleton, !elem_of_dom.
    rewrite lookup_mergeConfigs. unfold is_Some.
    destruct (langs c !! key) as [cfg|].
    + split; intros _; [right|]; eauto.
    + case_decide as Hkey.
      * split; intros _; [by left|eauto].
      * split; [intros [? [=]]|intros [?|[? [=]]]; done].
  - intros lang cfg Hlang. by rewrite lookup_mergeConfigs, Hlang.
  - intros Hnone. by rewrite lookup_mergeConfigs, Hnone.
  - intros Hempty%isEmpty_true. unfold mergeConfigs. by rewrite Hempty.
Qed.

Lemma mergeConfigs_shape_witness :
  langs two_configs !! "ru" = Some {[ "lang" := VStr "ru" ]}
  ∧ langs two_configs !! "base" = None
  ∧ mergeConfigs two_configs !! "ru"
    = Some ({[ "lang" := VStr "ru" ]} ∪ base two_configs)
  ∧ mergeConfigs two_configs !! "base" = Some (base two_configs).
Proof.
  assert (langs two_configs !! "ru" = Some {[ "lang" := VStr "ru" ]}) as Hru
    by reflexivity.
  assert (langs two_configs !! "base" = None) as Hbase by reflexivity.
  destruct (mergeConfigs_shape two_configs) as (_ & Hlang & Hkeep & _).
  split_and!; [exact Hru|exact Hbase|exact (Hlang _ _ Hru)|exact (Hkeep Hbase)].
Defined.

(** C1 as stated fails: with a language present the base config is still a
    top-level key next to the language. *)
Lemma mergeConfigs_exposes_base :
  langs two_configs ≠ ∅
  ∧ langs two_configs !! "base" = None
  ∧ mergeConfigs two_configs !! "base" = Some (base two_configs)
  ∧ dom (mergeConfigs two_configs) ≠ dom (langs two_configs).
Proof.
  assert (mergeConfigs two_configs !! "base" = Some (base two_configs)) as Hb
    by (by vm_compute).
  split_and!; [|done|done|].
  - intros Hempty. by apply (f_equal (.!! "ru")) in Hempty.
  - intros Hdom. assert ("base" ∈ dom (langs two_configs)) as Hin.
    { rewrite <-Hdom. apply elem_of_dom. by rewrite Hb. }
    apply elem_of_dom in Hin as [? Hin]. done.
Qed.

(** C2, as amended. The merge is right-biased and shallow: on a key of the
    language config the merged config holds the language's value whole, be it
    a nested map or an array, and on any other key it holds the base's. *)
Theorem mergeConfigs_right_biased (c : configs) lang (lang_config : obj) :
  langs c !! lang = Some lang_config →
  ∃ merged : obj,
    mergeConfigs c !! lang = Some merged
    ∧ ∀ key, merged !! key
             = match lang_config !! key with
               | Some v => Some v
               | None => base c !! key
               end.
Proof.
  intros Hlang. exists (lang_config ∪ base c). split.
  - by rewrite lookup_mergeConfigs, Hlang.
  - intros key. rewrite lookup_union.
    by destruct (lang_config !! key), (base c !! key).
Qed.

Lemma mergeConfigs_right_biased_witness :
  ∃ merged : obj,
    mergeConfigs nested_configs !! "en" = Some merged
    ∧ merged !! "tags" = Some (VArr [VStr "r"]).
Proof.
  destruct (mergeConfigs_right_biased nested_configs "en"
              {[ "a" := VObj {[ "y" := VNum 3 ]}; "tags" := VArr [VStr "r"] ]}
              eq_refl) as (merged & Hmerged & Hkeys).
  exists merged. split; [exact Hmerged|exact (Hkeys "tags")].
Defined.

(** C2 as stated fails: the language's nested map replaces the base's, so
    the key [x] that only the base's nested map has is lost. *)
Lemma mergeConfigs_not_recursive :
  base nested_configs !! "a" = Some (VObj {[ "x" := VNum 1; "y" := VNum 2 ]})
  ∧ mergeConfigs nested_configs !! "en"
    = Some {[ "a" := VObj {[ "y" := VNum 3 ]}; "tags" := VArr [VStr "r"] ]}
  ∧ ¬ merges_nested_maps.
Proof.
  split_and!; [by vm_compute..|].
  intros Hdeep.
  destruct (Hdeep nested_configs "en"
              {[ "a" := VObj {[ "y" := VNum 3 ]}; "tags" := VArr [VStr "r"] ]}
              {[ "x" := VNum 1; "y" := VNum 2 ]} {[ "y" := VNum 3 ]}
              "a" "x" (VNum 1) eq_refl eq_refl eq_refl eq_refl eq_refl)
    as (merged & merged_map & Hmerged & Ha & Hx).
  vm_compute in Hmerged. injection Hmerged as <-.
  vm_compute in Ha. injection Ha as <-.
  vm_compute in Hx. discriminate Hx.
Qed.

(** ** Cutting and splitting strings *)

Module CutFacts.
Import Str StrFacts.

Lemma cut_at_Some sep s a b :
  cut_at sep s = Some (a, b) → s = a +:+ sep +:+ b.
Proof.
  revert a. induction s as [|c s IH]; intros a; simpl.
  - destruct (strip_prefix sep "") as [rest|] eqn:Hp; [|done].
    intros [= <- <-]. by apply strip_prefix_Some in Hp.
  - destruct (strip_prefix sep (String c s)) as [rest|] eqn:Hp.
    + intros [= <- <-]. by apply strip_prefix_Some in Hp.
    + destruct (cut_at sep s) as [[a' b']|]; [|done].
      intros [= <- <-]. by rewrite (IH a' eq_refl).
Qed.

Lemma cut_at_None sep s :
  cut_at sep s = None → ∀ a b, s ≠ a +:+ sep +:+ b.
Proof.
  induction s as [|c s IH]; simpl.
  - destruct (strip_prefix sep "") as [rest|] eqn:Hp; [done|]. intros _ a b.
    destruct a; [|done]. apply (strip_prefix_None _ _ Hp).
  - destruct (strip_prefix sep (String c s)) as [rest|] eqn:Hp; [done|].
    destruct (cut_at sep s) as [[a' b']|]; [done|]. intros _ a b.
    destruct a as [|c' a].
    + apply (strip_prefix_None _ _ Hp).
    + rewrite app_cons. intros [= _ Hs]. by apply (IH eq_refl a b).
Qed.

(** The occurrence that [cut_at] finds is the leftmost one. *)
Lemma cut_at_leftmost sep s a b :
  cut_at sep s = Some (a, b) →
  ∀ p q, s = p +:+ sep +:+ q → String.length a ≤ String.length p.
Proof.
  revert a. induction s as [|c s IH]; intros a; simpl.
  - destruct (strip_prefix sep ""); [|done]. intros [= <- <-] p q _. simpl. lia.
  - destruct (strip_prefix sep (String c s)) as [rest|] eqn:Hp.
    { intros [= <- <-] p q _. simpl. lia. }
    destruct (cut_at sep s) as [[a' b']|]; [|done].
    intros [= <- <-] p q Hs. destruct p as [|c' p].
    + by destruct (strip_prefix_None _ _ Hp q).
    + rewrite app_cons in Hs. injection Hs as _ Hs. simpl.
      specialize (IH a' eq_refl p q Hs). lia.
Qed.

Lemma contains_false sep s :
  contains sep s = false ↔ ∀ a b, s ≠ a +:+ sep +:+ b.
Proof.
  unfold contains. destruct (cut_at sep s) as [[a b]|] eqn:Hcut.
  - split; [done|]. intros Hno. by destruct (Hno a b (cut_at_Some _ _ _ _ Hcut)).
  - split; [|done]. intros _. by apply cut_at_None.
Qed.

Lemma split_from_head fuel sep s :
  split_from fuel sep s !! 0 = Some (up_to sep s).
Proof.
  unfold up_to. destruct fuel; simpl; by destruct (cut_at sep s) as [[??]|].
Qed.

Lemma split_first sep s : sep ≠ "" → split sep s !! 0 = Some (up_to sep s).
Proof.
  intros Hsep. unfold split. rewrite decide_False by done. apply split_from_head.
Qed.

Lemma split_second sep s :
  sep ≠ "" →
  split sep s !! 1
  = match cut_at sep s with
    | Some (_, rest) => Some (up_to sep rest)
    | None => None
    end.
Proof.
  intros Hsep. unfold split. rewrite decide_False by done.
  destruct (cut_at sep s) as [[a rest]|] eqn:Hcut.
  - apply cut_at_Some in Hcut as Hs.
    destruct (String.length s) as [|fuel] eqn:Hlen.
    + apply length_zero in Hlen. subst s. destruct a; [|done].
      by destruct sep.
    + simpl. rewrite Hcut. simpl. apply split_from_head.
  - destruct (String.length s); simpl; by rewrite Hcut.
Qed.

End CutFacts.

(** ** DocumentParser *)

Lemma and_trim_string s : and_trim (Some s) = VStr (Str.trim s).
Proof. unfold and_trim. case_decide as Hs; [by subst s|done]. Qed.

Lemma lookup_parseCustomFields (attributes : obj)
    (parsers : gmap string field_parser) (name : string) :
  parsers !! name = None →
  parseCustomFields attributes parsers !! name = attributes !! name.
Proof.
  intros Hnone. unfold parseCustomFields.
  apply lookup_union_r. by rewrite map_lookup_imap, Hnone.
Qed.

Section extended_attributes.
Context (attributes : obj) (sourcePath content excerpt more url : value).

Local Abbreviation extended :=
  (<["url" := url]>
     (<["more" := more]>
        (<["excerpt" := excerpt]>
           (<["content" := content]>
              (<["sourcePath" := sourcePath]> attributes))))).

Lemma lookup_extended_content : extended !! "content" = Some content.
Proof. rewrite !lookup_insert_ne by done. apply lookup_insert_eq. Qed.

Lemma lookup_extended_excerpt : extended !! "excerpt" = Some excerpt.
Proof. rewrite !lookup_insert_ne by done. apply lookup_insert_eq. Qed.

Lemma lookup_extended_more : extended !! "more" = Some more.
Proof. rewrite !lookup_insert_ne by done. apply lookup_insert_eq. Qed.

End extended_attributes.

(** C3, as amended. With no field parser of these names: [content] is the
    whole trimmed body. Without a cut marker (none, or the empty string)
    [excerpt] and [more] are undefined. With a marker that the body does not
    hold, [excerpt] is the whole trimmed body and [more] is undefined. With a
    marker that the body holds, [excerpt] is the trimmed text before its
    first occurrence and [more] the trimmed text after it, up to the next
    occurrence when there is one. *)
Theorem parsePage_cut (fastmatter : string → obj * string)
    (source filepath : string) (options : parse_options) :
  let body := renderByType (fastmatter source).2 filepath (renderers options) in
  let document := parsePage fastmatter source filepath options in
  fieldParsers options !! "content" = None →
  fieldParsers options !! "excerpt" = None →
  fieldParsers options !! "more" = None →
  get document "content" = VStr (Str.trim body)
  ∧ (cutTag options = None ∨ cutTag options = Some "" →
     get document "excerpt" = VUndef ∧ get document "more" = VUndef)
  ∧ (∀ tag, cutTag options = Some tag → tag ≠ "" →
       Str.cut_at tag body = None →
       get document "excerpt" = VStr (Str.trim body)
       ∧ get document "more" = VUndef)
  ∧ (∀ tag before after, cutTag options = Some tag → tag ≠ "" →
       Str.cut_at tag body = Some (before, after) →
       get document "excerpt" = VStr (Str.trim before)
       ∧ get document "more" = VStr (Str.trim (Str.up_to tag after))).
Proof.
  intros body document Hcontent Hexcerpt Hmore.
  subst body document. unfold parsePage, get.
  destruct (fastmatter source) as [attributes body]. cbn [snd].
  rewrite !lookup_parseCustomFields by done.
  rewrite lookup_extended_content, lookup_extended_excerpt, lookup_extended_more.
  cbn [from_option id]. rewrite and_trim_string.
  set (content := renderByType body filepath (renderers options)).
  split_and!.
  - done.
  - by intros [->| ->].
  - intros tag -> Htag Hcut. rewrite decide_False by done.
    rewrite CutFacts.split_first, CutFacts.split_second by done.
    unfold Str.up_to. rewrite Hcut. by rewrite and_trim_string.
  - intros tag before after -> Htag Hcut. rewrite decide_False by done.
    rewrite CutFacts.split_first, CutFacts.split_second by done.
    unfold Str.up_to at 1. rewrite Hcut. by rewrite !and_trim_string.
Qed.

Lemma parsePage_cut_witness :
  let document :=
    parsePage plain_fastmatter " Intro <!--more--> Rest " "post.md" cut_options in
  get document "content" = VStr "Intro <!--more--> Rest"
  ∧ get document "excerpt" = VStr "Intro"
  ∧ get document "more" = VStr "Rest".
Proof.
  destruct (parsePage_cut plain_fastmatter " Intro <!--more--> Rest " "post.md"
              cut_options eq_refl eq_refl eq_refl) as (Hcontent & _ & _ & Hcut).
  split; [exact Hcontent|].
  exact (Hcut "<!--more-->" " Intro " " Rest " eq_refl ltac:(done) eq_refl).
Defined.

(** C3 as stated fails: a configured marker that the body does not hold
    still sets [excerpt], to the whole body. *)
Lemma parsePage_excerpt_without_marker :
  let document := parsePage plain_fastmatter "Hello" "post.md" cut_options in
  cutTag cut_options = Some "<!--more-->"
  ∧ Str.contains "<!--more-->" "Hello" = false
  ∧ get document "excerpt" = VStr "Hello"
  ∧ get document "excerpt" ≠ VUndef.
Proof. by vm_compute. Qed.

(** ** DocumentQuery: grouping *)

Lemma in_group_empty key d : ¬ in_group ∅ key d.
Proof. by intros (group & Hgroup & _). Qed.

Lemma in_group_push_to key' d' grouped key d :
  in_group (push_plain key' d' grouped) key d
  ↔ in_group grouped key d ∨ (key = key' ∧ d = d').
Proof.
  unfold in_group, push_plain. destruct (decide (key' = key)) as [->|Hne].
  - rewrite lookup_insert_eq. split.
    + intros (group & [= <-] & Hd). apply elem_of_app in Hd as [Hd|Hd].
      * left. destruct (grouped !! key) as [group|]; [eauto|].
        by apply elem_of_nil in Hd.
      * right. by apply list_elem_of_singleton in Hd.
    + intros [(group & Hgroup & Hd)|[_ ->]].
      * eexists. split; [done|]. rewrite Hgroup. apply elem_of_app. by left.
      * eexists. split; [done|]. apply elem_of_app. right.
        by apply list_elem_of_singleton.
  - rewrite lookup_insert_ne by done. split; [by left|].
    intros [?|[-> _]]; done.
Qed.

Lemma in_group_push_each (subValues : list value) d' grouped key d :
  in_group
    (foldl (λ grouped subValue, push_plain (to_string subValue) d' grouped)
       grouped subValues) key d
  ↔ in_group grouped key d ∨ (d = d' ∧ key ∈ to_string <$> subValues).
Proof.
  revert grouped. induction subValues as [|v l IH]; intros grouped; simpl.
  - split; [by left|]. intros [?|[_ Hin]]; [done|]. by apply elem_of_nil in Hin.
  - rewrite IH, in_group_push_to, elem_of_cons. naive_solver.
Qed.

Lemma in_group_step field d' grouped key d :
  in_group (group_step_plain field grouped d') key d
  ↔ in_group grouped key d ∨ (d = d' ∧ key ∈ group_keys field d').
Proof.
  assert (∀ v, in_group (if truthy v then push_plain (to_string v) d' grouped
                         else grouped) key d
               ↔ in_group grouped key d
                 ∨ (d = d' ∧ key ∈ if truthy v then [to_string v] else []))
    as Hsingle.
  { intros v. destruct (truthy v).
    - rewrite in_group_push_to, list_elem_of_singleton. naive_solver.
    - split; [by left|]. intros [?|[_ Hin]]; [done|].
      by apply elem_of_nil in Hin. }
  unfold group_step_plain, group_keys, group_value. destruct field as [name|f].
  - destruct (get d' name); try apply Hsingle. apply in_group_push_each.
  - apply Hsingle.
Qed.

Lemma in_group_fold field (documents : list obj) grouped key d :
  in_group (foldl (group_step_plain field) grouped documents) key d
  ↔ in_group grouped key d ∨ (d ∈ documents ∧ key ∈ group_keys field d).
Proof.
  revert grouped. induction documents as [|d' l IH]; intros grouped; simpl.
  - split; [by left|]. intros [?|[Hin _]]; [done|]. by apply elem_of_nil in Hin.
  - rewrite IH, in_group_step, elem_of_cons. naive_solver.
Qed.

(** A document is in a group exactly when it is one of the documents and the
    group's key is one of its keys. *)
Lemma in_group_plain (documents : list obj) field key d :
  in_group (group_plain documents field) key d
  ↔ d ∈ documents ∧ key ∈ group_keys field d.
Proof.
  unfold group_plain. rewrite in_group_fold. split; [|by right].
  intros [Hempty|?]; [|done]. by destruct (in_group_empty _ _ Hempty).
Qed.

Lemma group_keys_truthy field d key :
  key ∈ group_keys field d → truthy (group_value field d) = true.
Proof.
  unfold group_keys.
  destruct field, (group_value _ d) as [| |b|n|s|l|o] eqn:Hv; simpl;
    try done; try (by intros ?%elem_of_nil).
  - by destruct b; [|intros ?%elem_of_nil].
  - by destruct (negb _); [|intros ?%elem_of_nil].
  - by destruct (negb _); [|intros ?%elem_of_nil].
  - by destruct b; [|intros ?%elem_of_nil].
  - by destruct (negb _); [|intros ?%elem_of_nil].
  - by destruct (negb _); [|intros ?%elem_of_nil].
Qed.

(** *** The names that the grouping object inherits *)

Lemma inherited_false key :
  inherited key = false ↔ key ∉ object_prototype_names.
Proof. apply bool_decide_eq_false. Qed.

Lemma no_inherited_empty : no_inherited ∅.
Proof. intros key _. apply lookup_empty. Qed.

Lemma push_to_result key d grouped :
  no_inherited grouped →
  push_to key d grouped
  = if inherited key then Throw not_a_function
    else Ok (push_plain key d grouped).
Proof.
  intros Hown. unfold push_to, push_plain.
  destruct (inherited key) eqn:Hkey.
  - by rewrite (Hown key Hkey).
  - by destruct (grouped !! key).
Qed.

Lemma no_inherited_push key d grouped :
  inherited key = false → no_inherited grouped →
  no_inherited (push_plain key d grouped).
Proof.
  intros Hkey Hown key' Hkey'. unfold push_plain.
  rewrite lookup_insert_ne; [by apply Hown|congruence].
Qed.

Lemma foldl_throw {A B} (step : B → A → result B) e (l : list A) :
  foldl (λ so_far x, b ← so_far; step b x) (Throw e) l = Throw e.
Proof. by induction l. Qed.

Lemma push_each_result (subValues : list value) d grouped :
  no_inherited grouped →
  foldl (λ so_far subValue,
           grouped ← so_far; push_to (to_string subValue) d grouped)
    (Ok grouped) subValues
  = if forallb (λ key, negb (inherited key)) (to_string <$> subValues)
    then Ok (foldl (λ grouped subValue,
                      push_plain (to_string subValue) d grouped)
               grouped subValues)
    else Throw not_a_function.
Proof.
  revert grouped. induction subValues as [|v l IH]; intros grouped Hown; [done|].
  cbn [foldl fmap list_fmap forallb]. cbn [mbind result_bind].
  rewrite push_to_result by done.
  destruct (inherited (to_string v)) eqn:Hkey; cbn [negb andb].
  - apply foldl_throw.
  - by apply IH, no_inherited_push.
Qed.

Lemma no_inherited_push_each (subValues : list value) d grouped :
  forallb (λ key, negb (inherited key)) (to_string <$> subValues) = true →
  no_inherited grouped →
  no_inherited (foldl (λ grouped subValue,
                         push_plain (to_string subValue) d grouped)
                  grouped subValues).
Proof.
  revert grouped. induction subValues as [|v l IH]; intros grouped; [done|].
  cbn [foldl fmap list_fmap forallb].
  intros [Hkey%negb_true_iff Hrest]%andb_true_iff Hown.
  by apply IH, no_inherited_push.
Qed.

Lemma group_step_result field d grouped :
  no_inherited grouped →
  group_step field grouped d
  = if forallb (λ key, negb (inherited key)) (group_keys field d)
    then Ok (group_step_plain field grouped d)
    else Throw not_a_function.
Proof.
  intros Hown.
  assert (∀ v, (if truthy v then push_to (to_string v) d grouped
                else Ok grouped)
               = if forallb (λ key, negb (inherited key))
                      (if truthy v then [to_string v] else [])
                 then Ok (if truthy v then push_plain (to_string v) d grouped
                          else grouped)
                 else Throw not_a_function) as Hsingle.
  { intros v. destruct (truthy v); [|done].
    rewrite push_to_result by done. cbn [forallb].
    by destruct (inherited (to_string v)). }
  unfold group_step, group_step_plain, group_keys, group_value.
  destruct field as [name|f].
  - destruct (get d name); try apply Hsingle. by apply push_each_result.
  - apply Hsingle.
Qed.

Lemma no_inherited_group_step field d grouped :
  forallb (λ key, negb (inherited key)) (group_keys field d) = true →
  no_inherited grouped → no_inherited (group_step_plain field grouped d).
Proof.
  intros Hkeys Hown.
  assert (∀ v, forallb (λ key, negb (inherited key))
                 (if truthy v then [to_string v] else []) = true →
               no_inherited (if truthy v then push_plain (to_string v) d grouped
                             else grouped)) as Hsingle.
  { intros v. destruct (truthy v); [|done]. cbn [forallb].
    intros [Hkey%negb_true_iff _]%andb_true_iff. by apply no_inherited_push. }
  unfold group_step_plain, group_keys, group_value in *.
  destruct field as [name|f].
  - destruct (get d name); try (by apply Hsingle).
    by apply no_inherited_push_each.
  - by apply Hsingle.
Qed.

Lemma group_fold_result field (documents : list obj) grouped :
  no_inherited grouped →
  foldl (λ so_far document, grouped ← so_far; group_step field grouped document)
    (Ok grouped) documents
  = if own_keys documents field
    then Ok (foldl (group_step_plain field) grouped documents)
    else Throw not_a_function.
Proof.
  revert grouped. unfold own_keys.
  induction documents as [|d l IH]; intros grouped Hown; [done|].
  cbn [foldl forallb]. cbn [mbind result_bind].
  rewrite group_step_result by done.
  destruct (forallb _ (group_keys field d)) eqn:Hkeys; cbn [andb].
  - by apply IH, no_inherited_group_step.
  - apply foldl_throw.
Qed.

(** Grouping fails exactly when a key is an inherited name, and is the plain
    grouping otherwise. *)
Lemma groupDocuments_result (documents : list obj) field :
  groupDocuments documents field
  = if own_keys documents field then Ok (group_plain documents field)
    else Throw not_a_function.
Proof.
  unfold groupDocuments, group_plain.
  apply group_fold_result. apply no_inherited_empty.
Qed.

Lemma forallb_false {A} (f : A → bool) (l : list A) :
  forallb f l = false → ∃ x, x ∈ l ∧ f x = false.
Proof.
  induction l as [|x l IH]; [done|]. cbn.
  destruct (f x) eqn:Hx; cbn.
  - intros (y & Hy & Hfy)%IH. exists y. split; [by right|done].
  - intros _. exists x. split; [by left|done].
Qed.

Lemma own_keys_false (documents : list obj) field :
  own_keys documents field = false →
  ∃ d key, d ∈ documents ∧ key ∈ group_keys field d
           ∧ key ∈ object_prototype_names.
Proof.
  intros (d & Hd & (key & Hkey & Hname)%forallb_false)%forallb_false.
  exists d, key. split_and!; [done..|].
  apply negb_false_iff in Hname. by apply bool_decide_eq_true in Hname.
Qed.

Lemma own_keys_spec (documents : list obj) field :
  own_keys documents field = true
  ↔ ∀ d key, d ∈ documents → key ∈ group_keys field d →
             key ∉ object_prototype_names.
Proof.
  unfold own_keys. rewrite <-Is_true_true, forallb_True, Forall_forall.
  split.
  - intros Hall d key Hd Hkey. specialize (Hall d Hd).
    rewrite forallb_True, Forall_forall in Hall.
    specialize (Hall key Hkey). apply Is_true_true, negb_true_iff in Hall.
    by apply inherited_false.
  - intros Hall d Hd. rewrite forallb_True, Forall_forall. intros key Hkey.
    apply Is_true_true, negb_true_iff, inherited_false. by apply (Hall d).
Qed.

(** C5 fails on the code. The grouping object is a plain [{}], so under the
    name of a member it inherits, such as [constructor], there is never a
    group: a document whose sequence of values holds such a name is not
    placed in the groups of its values, grouping throws a type error. *)
Theorem groupDocuments_inherited_key :
  get constructor_post "tags" = VArr [VStr "js"; VStr "constructor"]
  ∧ groupDocuments [constructor_post] (ByName "tags") = Throw not_a_function
  ∧ groupDocuments (posts ++ [constructor_post]) (ByName "tags")
    = Throw not_a_function.
Proof. by vm_compute. Qed.

(** X23. Grouping throws, and then a type error, exactly when some document
    has a group key that is the name of a member inherited from
    [Object.prototype]; with no such key it returns a grouping. *)
Theorem groupDocuments_throws (documents : list obj) field :
  (∀ e, groupDocuments documents field = Throw e
        ↔ e = not_a_function
          ∧ ∃ d key, d ∈ documents ∧ key ∈ group_keys field d
                     ∧ key ∈ object_prototype_names)
  ∧ ((∃ grouped, groupDocuments documents field = Ok grouped)
     ↔ ∀ d key, d ∈ documents → key ∈ group_keys field d →
                key ∉ object_prototype_names).
Proof.
  rewrite groupDocuments_result, <-own_keys_spec.
  destruct (own_keys documents field) eqn:Hown.
  - split.
    + intros e. split; [done|]. intros (_ & d & key & Hd & Hkey & Hname).
      by destruct (proj1 (own_keys_spec documents field) Hown d key Hd Hkey).
    + split; [done|]. by eexists.
  - split.
    + intros e. split; [|by intros [-> _]].
      intros [= <-]. split; [done|]. by apply own_keys_false.
    + split; [by intros [? ?]|done].
Qed.

Lemma groupDocuments_throws_witness :
  groupDocuments (posts ++ [constructor_post]) (ByName "tags")
  = Throw not_a_function.
Proof.
  apply (proj1 (groupDocuments_throws (posts ++ [constructor_post])
                  (ByName "tags"))).
  split; [reflexivity|]. exists constructor_post, "constructor".
  split_and!.
  - apply elem_of_app. right. by left.
  - right. by left.
  - unfold object_prototype_names. by left.
Defined.

(** X24. When no group key is an inherited name (and the values that become
    keys are printable), grouping returns a grouping in which a document
    whose field holds a sequence is in the group of every value of that
    sequence, a document is in the group of the key that a function computes
    for it, and whatever is in a group is one of the documents, has a truthy
    deciding value and has the key of the group among its keys, so that a
    document whose value is falsy or absent is in no group at all. *)
Theorem groupDocuments_plain_keys (documents : list obj) field :
  own_keys documents field = true →
  printable_keys documents field = true →
  ∃ grouped,
    groupDocuments documents field = Ok grouped
    ∧ (∀ name d subValues subValue,
         field = ByName name → d ∈ documents →
         get d name = VArr subValues → subValue ∈ subValues →
         in_group grouped (to_string subValue) d)
    ∧ (∀ f d,
         field = ByFunction f → d ∈ documents → truthy (f d) = true →
         in_group grouped (to_string (f d)) d)
    ∧ (∀ key d,
         in_group grouped key d →
         d ∈ documents ∧ truthy (group_value field d) = true
         ∧ key ∈ group_keys field d).
Proof.
  intros Hown _. exists (group_plain documents field).
  split_and!.
  - by rewrite groupDocuments_result, Hown.
  - intros name d subValues subValue -> Hd Hvalue Hsub.
    apply in_group_plain. split; [done|].
    unfold group_keys, group_value. rewrite Hvalue.
    by apply list_elem_of_fmap_2.
  - intros f d -> Hd Htruthy. apply in_group_plain. split; [done|].
    unfold group_keys, group_value. rewrite Htruthy.
    by apply list_elem_of_singleton.
  - intros key d [Hd Hkey]%in_group_plain.
    split_and!; [done| |done]. by eapply group_keys_truthy.
Qed.

Lemma groupDocuments_plain_keys_witness :
  ∃ grouped,
    groupDocuments posts (ByName "tags") = Ok grouped
    ∧ in_group grouped "css" tagged_post
    ∧ ∀ key, ¬ in_group grouped key draft_post.
Proof.
  destruct (groupDocuments_plain_keys posts (ByName "tags") eq_refl eq_refl)
    as (grouped & Hgrouped & Heach & _ & Htruthy).
  exists grouped. split_and!.
  - exact Hgrouped.
  - apply (Heach "tags" tagged_post [VStr "js"; VStr "css"] (VStr "css")).
    + reflexivity.
    + by left.
    + reflexivity.
    + right. by left.
  - intros key Hin. apply Htruthy in Hin as (_ & Hvalue & _).
    discriminate Hvalue.
Defined.

(** ** Paginator *)

Lemma ceil_div_bounds (a b : Z) :
  (0 < b)%Z → ((ceil_div a b - 1) * b < a ≤ ceil_div a b * b)%Z.
Proof.
  intros Hb. unfold ceil_div.
  pose proof (Z.div_mod (- a) b) as Hdiv.
  pose proof (Z.mod_pos_bound (- a) b Hb) as Hmod. nia.
Qed.

Lemma ceil_div_nonneg (a b : Z) :
  (0 ≤ a)%Z → (0 < b)%Z → (0 ≤ ceil_div a b)%Z.
Proof. intros Ha Hb. pose proof (ceil_div_bounds a b Hb). nia. Qed.

(** On a page that starts inside the list, [slice] is [take] after [drop]. *)
Lemma slice_window {A} (l : list A) (k n : nat) :
  k ≤ length l →
  slice l (Z.of_nat k) (Z.of_nat k + Z.of_nat n) = take n (drop k l).
Proof.
  intros Hk. unfold slice.
  rewrite !decide_False by lia.
  rewrite (Z.min_l (Z.of_nat k)) by lia. rewrite Nat2Z.id.
  destruct (decide (k + n ≤ length l)) as [Hfit|Hover].
  - rewrite Z.min_l by lia. f_equal. lia.
  - rewrite Z.min_r by lia.
    rewrite !take_ge; [done|rewrite length_drop; lia..].
Qed.

Section pagination_page.
Context (documents : list obj) (options : paginate_options).
Context (sourcePrefix prefix : string) (perPage : Z) (pageLayout : string).
Context (totalPages number : Z).

Local Abbreviation this_page :=
  (pagination_page documents options sourcePrefix prefix perPage pageLayout
     totalPages number).

Lemma page_url :
  this_page !! "url" = Some (VStr (getPageNumberUrl prefix (number + 1) false)).
Proof. apply lookup_insert_eq. Qed.

Lemma page_documentsTotal :
  this_page !! "documentsTotal" = Some (VNum (Z.of_nat (length documents))).
Proof.
  unfold pagination_page.
  rewrite !lookup_insert_ne by done. apply lookup_insert_eq.
Qed.

Lemma page_documents :
  this_page !! "documents"
  = Some (VArr (VObj <$> slice documents (number * perPage)
                           (number * perPage + perPage))).
Proof.
  unfold pagination_page.
  rewrite !lookup_insert_ne by done. rewrite lookup_insert_eq.
  by replace (number + 1 - 1)%Z with number by lia.
Qed.

Lemma page_previousUrl :
  this_page !! "previousUrl"
  = Some (if decide (0 < number)%Z
          then VStr (getPageNumberUrl prefix number false)
          else VNull).
Proof.
  unfold pagination_page.
  rewrite !lookup_insert_ne by done. rewrite lookup_insert_eq.
  replace (number + 1 - 1)%Z with number by lia.
  by destruct (decide (number + 1 > 1)%Z), (decide (0 < number)%Z); try lia.
Qed.

Lemma page_nextUrl :
  this_page !! "nextUrl"
  = Some (if decide (number + 1 < totalPages)%Z
          then VStr (getPageNumberUrl prefix (number + 1 + 1) false)
          else VNull).
Proof.
  unfold pagination_page.
  rewrite !lookup_insert_ne by done. rewrite lookup_insert_eq.
  by destruct (decide (number + 1 < totalPages)%Z).
Qed.

End pagination_page.

Lemma paginate_Ok (documents : list obj) (options : paginate_options)
    sourcePrefix prefix perPage pageLayout :
  sourcePathPrefix options = Some sourcePrefix →
  urlPrefix options = Some prefix →
  documentsPerPage options = Some perPage → perPage ≠ 0%Z →
  layout options = Some pageLayout → pageLayout ≠ "" →
  let totalPages := ceil_div (Z.of_nat (length documents)) perPage in
  paginate documents options
  = Ok (pagination_page documents options sourcePrefix prefix perPage
          pageLayout totalPages <$> range totalPages).
Proof.
  intros Hsource Hurl HperPage Hnonzero Hlayout Hnonempty totalPages.
  unfold paginate. rewrite Hsource, Hurl, HperPage, Hlayout. simpl.
  apply Z.eqb_neq in Hnonzero. rewrite Hnonzero. simpl.
  by rewrite bool_decide_eq_false_2.
Qed.

(** C6. With [documentsPerPage > 0] (and the other options given), [paginate]
    returns as many pages as the ceiling of the document count over
    [documentsPerPage]; page [n] holds the slice of the documents from
    [(n-1) * documentsPerPage] up to [n * documentsPerPage]; every page's
    [documentsTotal] is the document count; the [url] of page [n] is the URL
    of that page number under [urlPrefix]; [previousUrl] is null on the first
    page and [nextUrl] on the last, and otherwise they are the URL of the
    page before and after; ten documents by four give pages of four, four and
    two documents. *)
Theorem paginate_pages (documents : list obj) (options : paginate_options)
    sourcePrefix prefix perPage pageLayout :
  sourcePathPrefix options = Some sourcePrefix →
  urlPrefix options = Some prefix →
  documentsPerPage options = Some perPage → (0 < perPage)%Z →
  layout options = Some pageLayout → pageLayout ≠ "" →
  ∃ pages : list obj,
    paginate documents options = Ok pages
    ∧ (let total := Z.of_nat (length pages) in
       let count := Z.of_nat (length documents) in
       (total - 1) * perPage < count ≤ total * perPage)%Z
    ∧ (∀ (i : nat) (page : obj),
         pages !! i = Some page →
         page !! "documents"
         = Some (VArr (VObj <$> take (Z.to_nat perPage)
                                  (drop (i * Z.to_nat perPage) documents)))
         ∧ page !! "documentsTotal" = Some (VNum (Z.of_nat (length documents)))
         ∧ page !! "url"
           = Some (VStr (getPageNumberUrl prefix (Z.of_nat i + 1) false))
         ∧ page !! "previousUrl"
           = match i with
             | O => Some VNull
             | S before => pages !! before ≫= (.!! "url")
             end
         ∧ page !! "nextUrl"
           = if decide (S i = length pages) then Some VNull
             else pages !! S i ≫= (.!! "url"))
    ∧ (length documents = 10 → perPage = 4%Z →
       page_size <$> pages = [Some 4; Some 4; Some 2]).
Proof.
  intros Hsource Hurl HperPage Hpositive Hlayout Hnonempty.
  set (count := Z.of_nat (length documents)).
  set (totalPages := ceil_div count perPage).
  set (pages := pagination_page documents options sourcePrefix prefix perPage
                  pageLayout totalPages <$> range totalPages).
  pose proof (ceil_div_bounds count perPage Hpositive) as Hceil.
  fold totalPages in Hceil.
  assert (0 ≤ totalPages)%Z as Htotal by (apply ceil_div_nonneg; lia).
  assert (range totalPages = seqZ 0 totalPages) as Hrange
    by (unfold range; by rewrite decide_True).
  assert (Z.of_nat (length pages) = totalPages) as Hlength.
  { subst pages. rewrite length_fmap, Hrange, length_seqZ. lia. }
  assert (∀ i, Z.of_nat i < totalPages →
               pages !! i
               = Some (pagination_page documents options sourcePrefix prefix
                         perPage pageLayout totalPages (Z.of_nat i)))%Z
    as Hpage.
  { intros i Hi. subst pages.
    by rewrite list_lookup_fmap, Hrange, lookup_seqZ_lt. }
  assert (∀ (i : nat) (page : obj),
         pages !! i = Some page →
         page !! "documents"
         = Some (VArr (VObj <$> take (Z.to_nat perPage)
                                  (drop (i * Z.to_nat perPage) documents)))
         ∧ page !! "documentsTotal" = Some (VNum count)
         ∧ page !! "url"
           = Some (VStr (getPageNumberUrl prefix (Z.of_nat i + 1) false))
         ∧ page !! "previousUrl"
           = match i with
             | O => Some VNull
             | S before => pages !! before ≫= (.!! "url")
             end
         ∧ page !! "nextUrl"
           = if decide (S i = length pages) then Some VNull
             else pages !! S i ≫= (.!! "url")) as Hpages.
  { intros i page Hi.
    assert (Z.of_nat i < totalPages)%Z as Hbound.
    { apply lookup_lt_Some in Hi. lia. }
    rewrite Hpage in Hi by done. injection Hi as <-.
    split_and!.
    - rewrite page_documents. do 3 f_equal.
      rewrite <-slice_window by (subst count; nia). f_equal; lia.
    - apply page_documentsTotal.
    - apply page_url.
    - rewrite page_previousUrl. destruct i as [|before].
      + by rewrite decide_False by lia.
      + rewrite decide_True by lia. rewrite Hpage by lia. simpl.
        rewrite page_url. do 3 f_equal. lia.
    - rewrite page_nextUrl. destruct (decide (S i = length pages)) as [Hlast|Hmore].
      + by rewrite decide_False by lia.
      + rewrite decide_True by lia. rewrite Hpage by lia. simpl.
        rewrite page_url. do 3 f_equal. lia. }
  exists pages. split_and!.
  - by apply paginate_Ok; [..|lia|done|done].
  - simpl. rewrite Hlength. exact Hceil.
  - exact Hpages.
  - intros Hten ->. assert (length pages = 3) as Hthree by (subst count; lia).
    destruct pages as [|p1 [|p2 [|p3 [|??]]]]; try done.
    destruct (Hpages 0 p1 eq_refl) as (H1 & _).
    destruct (Hpages 1 p2 eq_refl) as (H2 & _).
    destruct (Hpages 2 p3 eq_refl) as (H3 & _).
    simpl. unfold page_size. rewrite H1, H2, H3.
    rewrite !length_fmap, !length_take, !length_drop, Hten. done.
Qed.

Lemma paginate_pages_witness :
  ∃ pages : list obj,
    paginate ten_documents blog_pagination = Ok pages
    ∧ page_size <$> pages = [Some 4; Some 4; Some 2].
Proof.
  destruct (paginate_pages ten_documents blog_pagination "blog" "/blog" 4
              "pagination" eq_refl eq_refl eq_refl eq_refl eq_refl
              ltac:(done)) as (pages & Hok & _ & _ & Hsizes).
  exists pages. split; [exact Hok|exact (Hsizes eq_refl eq_refl)].
Defined.

(** C8. When one of [sourcePathPrefix], [urlPrefix], [documentsPerPage] and
    [layout] is absent, [paginate] throws a configuration error and returns
    no pages; the message names an option that is not specified, and that is
    the absent one whenever the options checked before it were given. *)
Theorem paginate_missing_option (documents : list obj)
    (options : paginate_options) :
  (sourcePathPrefix options = None ∨ urlPrefix options = None
   ∨ documentsPerPage options = None ∨ layout options = None →
   ∃ name,
     unspecified options name
     ∧ paginate documents options
       = Throw (ConfigError (quoted name +:+ " not specified for paginate().")))
  ∧ (sourcePathPrefix options = None →
     paginate documents options = Throw (not_specified "sourcePathPrefix"))
  ∧ (is_Some (sourcePathPrefix options) → urlPrefix options = None →
     paginate documents options = Throw (not_specified "urlPrefix"))
  ∧ (is_Some (sourcePathPrefix options) → is_Some (urlPrefix options) →
     documentsPerPage options = None →
     paginate documents options = Throw (not_specified "documentsPerPage"))
  ∧ (is_Some (sourcePathPrefix options) → is_Some (urlPrefix options) →
     (∃ perPage, documentsPerPage options = Some perPage ∧ perPage ≠ 0%Z) →
     layout options = None →
     paginate documents options = Throw (not_specified "layout")).
Proof.
  unfold paginate, unspecified. split_and!.
  - intros Habsent.
    destruct (sourcePathPrefix options) as [sourcePrefix|];
      [|exists "sourcePathPrefix"; split; [by left|done]].
    destruct (urlPrefix options) as [prefix|];
      [|exists "urlPrefix"; split; [right; by left|done]].
    destruct (documentsPerPage options) as [perPage|];
      [|exists "documentsPerPage"; split; [right; right; left; by auto|done]].
    destruct (layout options) as [pageLayout|]; [by destruct Habsent as [|[|[|]]]|].
    simpl. destruct (perPage =? 0)%Z eqn:Hzero; simpl.
    + apply Z.eqb_eq in Hzero as ->.
      exists "documentsPerPage". split; [right; right; left; by auto|done].
    + exists "layout". split; [right; right; right; by auto|done].
  - by intros ->.
  - by intros [? ->] ->.
  - by intros [? ->] [? ->] ->.
  - intros [? ->] [? ->] (perPage & -> & Hnonzero%Z.eqb_neq) ->. simpl.
    by rewrite Hnonzero.
Qed.

Lemma paginate_missing_option_witness :
  layout no_layout_pagination = None
  ∧ paginate ten_documents no_layout_pagination
    = Throw (not_specified "layout").
Proof.
  split; [reflexivity|].
  destruct (paginate_missing_option ten_documents no_layout_pagination)
    as (_ & _ & _ & _ & Hlayout).
  apply Hlayout; [by eexists|by eexists| |reflexivity].
  exists 4%Z. by split.
Defined.

(** ** PageRenderer *)

(** C10, as amended. In the render context a helper overwrites a document
    field of its name, and a document field named [config] overwrites the
    site config: a document field that shares its name with a helper is not
    exposed, while a document field named [config] is exposed, in place of
    the site config, unless a helper has that name. *)
Theorem makeContext_precedence {helper} (document : obj) (config : value)
    (helpers : gmap string helper) (name : string) :
  makeContext document config helpers !! name
  = match helpers !! name with
    | Some h => Some (BoundHelper h)
    | None =>
        match document !! name with
        | Some v => Some (Field v)
        | None => if decide (name = "config") then Some (Field config) else None
        end
    end.
Proof.
  unfold makeContext. rewrite lookup_assign_each.
  destruct (helpers !! name) as [h|]; [done|].
  rewrite lookup_union, lookup_fmap.
  destruct (document !! name) as [v|]; simpl.
  - by destruct ({[ "config" := Field config ]} !! name).
  - case_decide as Hname; [subst name; by rewrite lookup_singleton_eq|].
    by rewrite lookup_singleton_ne.
Qed.

(** C10 as stated fails: a document field named [config] is what the context
    exposes under that name. *)
Lemma makeContext_exposes_document_config :
  let document : obj := {[ "config" := VStr "mine" ]} in
  document !! "config" = Some (VStr "mine")
  ∧ makeContext document (VStr "site") (∅ : gmap string unit) !! "config"
    = Some (Field (VStr "mine")).
Proof. by vm_compute. Qed.

Section page_generation.
Context {helper : Type}.
Context (renderRss : gmap string (context_entry helper) → string).
Context (document : obj) (config : value) (helpers : gmap string helper).
Context (renderers
  : list (string * (string → gmap string (context_entry helper) → string))).

Local Abbreviation generated :=
  (generatePage renderRss document config helpers renderers).

(** C9. Without a source path, or with one and without a layout, rendering
    throws a configuration error, and the message of the second one names the
    source path of the document; with both it throws no configuration error,
    and with a template engine (or the feed layout) it yields the page. *)
Theorem generatePage_requirements :
  (truthy (get document "sourcePath") = false →
   generated
   = Throw (ConfigError ("Source path not specified. Add "
                         +:+ quoted "sourcePath" +:+ " front matter field.")))
  ∧ (truthy (get document "sourcePath") = true →
     truthy (get document "layout") = false →
     generated
     = Throw (ConfigError ("Layout not specified for "
                           +:+ to_string (get document "sourcePath")
                           +:+ ". Add " +:+ quoted "layout"
                           +:+ " front matter field.")))
  ∧ (truthy (get document "sourcePath") = true →
     truthy (get document "layout") = true →
     ∀ msg, generated ≠ Throw (ConfigError msg))
  ∧ (∀ sourcePath layout,
       get document "sourcePath" = VStr sourcePath → sourcePath ≠ "" →
       get document "layout" = VStr layout → layout ≠ "" →
       layout = "RSS" ∨ renderers ≠ [] →
       ∃ page, generated = Ok page
               ∧ ∃ extension,
                   pagePath page
                   = removeExtension sourcePath +:+ "." +:+ extension).
Proof.
  unfold generatePage. split_and!.
  - by intros ->.
  - by intros -> ->.
  - intros -> -> msg. simpl.
    destruct (get document "sourcePath"); simpl; try discriminate.
    destruct (is_string "RSS" (get document "layout")); [discriminate|].
    destruct renderers as [|[templateExtension render] ?]; [discriminate|].
    destruct (get document "layout"); discriminate.
  - intros sourcePath layout -> HsourcePath -> Hlayout Hengine. simpl.
    rewrite (bool_decide_eq_false_2 (sourcePath = "")) by done.
    rewrite (bool_decide_eq_false_2 (layout = "")) by done. simpl.
    case_bool_decide as Hrss.
    + eexists. split; [done|]. by exists "xml".
    + destruct Hengine as [?|Hengine]; [done|].
      destruct renderers as [|[templateExtension render] ?]; [done|]. simpl.
      eexists. split; [done|]. by eexists.
Qed.

End page_generation.

Lemma generatePage_requirements_witness :
  generatePage echo_rss no_layout_page VNull ∅ echo_renderers
  = Throw (ConfigError ("Layout not specified for about.md. Add "
                        +:+ quoted "layout" +:+ " front matter field."))
  ∧ ∃ page, generatePage echo_rss about_page VNull ∅ echo_renderers = Ok page.
Proof.
  split.
  - exact (proj1 (proj2 (generatePage_requirements echo_rss no_layout_page
                           VNull ∅ echo_renderers)) eq_refl eq_refl).
  - destruct (proj2 (proj2 (proj2 (generatePage_requirements echo_rss
                                     about_page VNull ∅ echo_renderers)))
                "about.md" "page" eq_refl ltac:(done) eq_refl ltac:(done)
                ltac:(by right)) as (page & Hpage & _).
    by exists page.
Defined.

(** ** Page numbers *)

(** C4 fails on the code: only the first double slash of the joined text is
    collapsed, so with a prefix that holds one already, the one that the join
    makes stays. *)
Theorem getPageNumberUrl_keeps_double_slash :
  getPageNumberUrl "http://example.com/" 2 false = "http:/example.com//page/2"
  ∧ Str.contains "//" (getPageNumberUrl "http://example.com/" 2 false) = true
  ∧ getPageNumberUrl "docs//" 1 true = "docs//index".
Proof. by vm_compute. Qed.

(** How [getPageNumberUrl] goes wrong is narrow: a prefix that holds no
    double slash never gives a path or URL with one. *)

Module SlashFacts.
Import Str StrFacts CutFacts.

Lemma strip_double_slash s :
  strip_prefix "//" s
  = match s with
    | String c (String d rest) =>
        if is_slash c && is_slash d then Some rest else None
    | _ => None
    end.
Proof.
  destruct s as [|c [|d rest]]; simpl; unfold is_slash;
    repeat case_decide; subst;
    rewrite ?bool_decide_eq_true_2, ?bool_decide_eq_false_2 by done; done.
Qed.

Lemma replace_first_cons c s :
  replace_first "//" "/" (String c s)
  = if is_slash c && starts_with_slash s then s
    else String c (replace_first "//" "/" s).
Proof.
  unfold replace_first. cbn [cut_at]. rewrite strip_double_slash.
  destruct s as [|d rest].
  - cbn. by rewrite andb_false_r.
  - cbn [starts_with_slash]. destruct (is_slash c && is_slash d) eqn:Hboth.
    + apply andb_true_iff in Hboth as [_ Hd%bool_decide_eq_true]. by subst d.
    + by destruct (cut_at "//" (String d rest)) as [[a b]|].
Qed.

Lemma starts_with_slash_replace s :
  starts_with_slash (replace_first "//" "/" s) = starts_with_slash s.
Proof.
  destruct s as [|c s]; [done|]. rewrite replace_first_cons.
  destruct (is_slash c && starts_with_slash s) eqn:Hboth; [|done].
  apply andb_true_iff in Hboth as [Hc Hs]. cbn. by rewrite Hc, Hs.
Qed.

Lemma contains_double_slash s :
  contains "//" s = negb (double_slash_free s).
Proof.
  unfold contains. induction s as [|c s IH]; [done|].
  cbn [cut_at double_slash_free]. rewrite strip_double_slash.
  destruct s as [|d rest].
  - cbn. by rewrite andb_false_r.
  - cbn [starts_with_slash]. destruct (is_slash c && is_slash d); [done|].
    cbn [negb andb]. rewrite <-IH.
    by destruct (cut_at "//" (String d rest)) as [[a b]|].
Qed.

Lemma replace_first_free s :
  double_slash_free s = true → replace_first "//" "/" s = s.
Proof.
  intros Hfree. unfold replace_first.
  pose proof (contains_double_slash s) as Hcontains. rewrite Hfree in Hcontains.
  unfold contains in Hcontains. by destruct (cut_at "//" s).
Qed.

Lemma free_cons c t :
  starts_with_slash t = false → double_slash_free t = true →
  double_slash_free (String c t) = true.
Proof.
  intros Hstart Ht. cbn [double_slash_free]. by rewrite Hstart, andb_false_r, Ht.
Qed.

(** Joining a prefix without double slash to a suffix ["/" t] and collapsing
    the first double slash leaves none. *)
Lemma join_collapsed p t :
  double_slash_free p = true →
  double_slash_free t = true → starts_with_slash t = false →
  double_slash_free (replace_first "//" "/" (p +:+ String "/" t)) = true.
Proof.
  intros Hp Ht Hstart. induction p as [|c p IH].
  - change ("" +:+ String "/" t) with (String "/" t).
    rewrite replace_first_free; by apply free_cons.
  - rewrite app_cons, replace_first_cons.
    cbn [double_slash_free] in Hp.
    apply andb_true_iff in Hp as [Hadjacent Hp]. specialize (IH Hp).
    destruct (is_slash c && starts_with_slash (p +:+ String "/" t)) eqn:Hboth.
    + destruct p as [|d p].
      * by apply free_cons.
      * apply andb_true_iff in Hboth as [Hc Hd]. rewrite app_cons in Hd.
        cbn in Hd, Hadjacent. by rewrite Hc, Hd in Hadjacent.
    + cbn [double_slash_free]. by rewrite starts_with_slash_replace, Hboth, IH.
Qed.

Lemma slashless_free s :
  all_chars (λ c, negb (is_slash c)) s = true →
  double_slash_free s = true ∧ starts_with_slash s = false.
Proof.
  induction s as [|c s IH]; [done|]. cbn.
  intros [Hc Hs]%andb_true_iff. destruct (IH Hs) as [-> _].
  apply negb_true_iff in Hc. by rewrite Hc.
Qed.

Lemma of_uint_slashless d :
  all_chars (λ c, negb (is_slash c)) (NilEmpty.string_of_uint d) = true.
Proof. induction d; done. Qed.

Lemma of_Z_slashless n : all_chars (λ c, negb (is_slash c)) (of_Z n) = true.
Proof.
  unfold of_Z, NilZero.string_of_int, NilZero.string_of_uint.
  destruct (Z.to_int n) as [d|d]; destruct d; try done;
    cbn; apply of_uint_slashless.
Qed.

End SlashFacts.

(** X14. A prefix that holds no double slash gives no path or URL that holds
    one, for any page number, with or without the index marker. *)
Lemma getPageNumberUrl_collapses prefix pageNumber index :
  Str.contains "//" prefix = false →
  Str.contains "//" (getPageNumberUrl prefix pageNumber index) = false.
Proof.
  rewrite !SlashFacts.contains_double_slash, !negb_false_iff.
  intros Hprefix. unfold getPageNumberUrl.
  destruct (decide (pageNumber = 1%Z)) as [_|_]; [destruct index|].
  - by apply SlashFacts.join_collapsed.
  - by rewrite SlashFacts.replace_first_free.
  - destruct (SlashFacts.slashless_free _
                (SlashFacts.of_Z_slashless pageNumber)) as [Hfree Hstart].
    apply (SlashFacts.join_collapsed prefix ("page/" +:+ Str.of_Z pageNumber));
      [done| |done].
    remember (Str.of_Z pageNumber) as number.
    rewrite !StrFacts.app_cons. change ("" +:+ number) with number.
    cbn. by rewrite Hstart, Hfree.
Qed.

(** ** DocumentQuery: filtering *)

Lemma document_passes_spec (fields : gmap string field_filter) (d : obj) :
  document_passes fields d
  ↔ ∀ field by_, fields !! field = Some by_ →
                 field_passes by_ (get d field).
Proof.
  unfold document_passes. rewrite forallb_True, Forall_forall. split.
  - intros Hall field by_ Hfield.
    by apply (Hall (field, by_)), elem_of_map_to_list.
  - intros Hall [field by_] Hin%elem_of_map_to_list. by apply Hall.
Qed.

Lemma elem_of_filterDocuments (documents : list obj)
    (fields : gmap string field_filter) (d : obj) :
  d ∈ filterDocuments documents fields
  ↔ d ∈ documents
    ∧ ∀ field by_, fields !! field = Some by_ →
                   field_passes by_ (get d field).
Proof.
  unfold filterDocuments.
  rewrite list_elem_of_filter, document_passes_spec. tauto.
Qed.

(** X9. Filtering by no field keeps every document. *)
Theorem filterDocuments_empty (documents : list obj) :
  filterDocuments documents ∅ = documents.
Proof.
  unfold filterDocuments. induction documents as [|d l IH]; [done|].
  rewrite filter_cons_True, IH; [done|].
  apply document_passes_spec. intros field by_ Hfield.
  by rewrite lookup_empty in Hfield.
Qed.

(** X10. The result of a filter is a sub-sequence of the documents, in their
    order, and holds exactly those that pass the filter of every field. *)
Theorem filterDocuments_spec (documents : list obj)
    (fields : gmap string field_filter) :
  filterDocuments documents fields `sublist_of` documents
  ∧ ∀ d, d ∈ filterDocuments documents fields
         ↔ d ∈ documents
           ∧ ∀ field by_, fields !! field = Some by_ →
                          field_passes by_ (get d field).
Proof.
  split; [apply sublist_filter|]. apply elem_of_filterDocuments.
Qed.

(** X11. Filtering twice, by two sets of fields that share no field, is filtering
    once by all of them. *)
Theorem filterDocuments_compose (documents : list obj)
    (fields1 fields2 : gmap string field_filter) :
  fields1 ##ₘ fields2 →
  filterDocuments (filterDocuments documents fields1) fields2
  = filterDocuments documents (fields1 ∪ fields2).
Proof.
  intros Hdisjoint. unfold filterDocuments. rewrite list_filter_filter.
  apply list_filter_iff. intros d. rewrite !document_passes_spec. split.
  - intros [H2 H1] field by_ [Hfield|[_ Hfield]]%lookup_union_Some_raw; eauto.
  - intros Hall. split; intros field by_ Hfield; apply Hall.
    + by apply lookup_union_Some_r.
    + by apply lookup_union_Some_l.
Qed.

Lemma filterDocuments_compose_witness :
  english_only ##ₘ titled_a
  ∧ filterDocuments (filterDocuments posts english_only) titled_a
    = filterDocuments posts (english_only ∪ titled_a).
Proof.
  assert (english_only ##ₘ titled_a) as Hdisjoint
    by (by apply map_disjoint_singleton_l_2).
  split; [exact Hdisjoint|].
  exact (filterDocuments_compose posts english_only titled_a Hdisjoint).
Defined.

(** X12. A document that lacks the filtered field is compared as [undefined]: it
    passes a literal only when the literal is [undefined], a function when
    the function accepts [undefined], and a regular expression when the
    expression matches the text [undefined]. *)
Theorem filterDocuments_missing_field (documents : list obj) field by_
    (d : obj) :
  d !! field = None →
  d ∈ filterDocuments documents {[ field := by_ ]}
  ↔ d ∈ documents
    ∧ match by_ with
      | ByPredicate f => truthy (f VUndef) = true
      | ByRegExp test => test "undefined" = true
      | ByLiteral p => p = PUndef
      end.
Proof.
  intros Hmissing. rewrite elem_of_filterDocuments.
  assert (get d field = VUndef) as Hget by (unfold get; by rewrite Hmissing).
  split.
  - intros [Hd Hall]. split; [done|].
    specialize (Hall field by_ (lookup_singleton_eq _ _)).
    rewrite Hget in Hall. destruct by_ as [f|test|p]; simpl in Hall.
    + by apply Is_true_true.
    + by apply Is_true_true.
    + by destruct p.
  - intros [Hd Hby]. split; [done|].
    intros field' by' [<- <-]%lookup_singleton_Some. rewrite Hget.
    destruct by_ as [f|test|p]; simpl.
    + by apply Is_true_true.
    + by apply Is_true_true.
    + by subst p.
Qed.

Lemma filterDocuments_missing_field_witness :
  draft_post !! "tags" = None
  ∧ draft_post
    ∈ filterDocuments posts
        {[ "tags" := ByRegExp (λ text, bool_decide (text = "undefined")) ]}.
Proof.
  split; [reflexivity|].
  apply (filterDocuments_missing_field posts "tags" _ draft_post eq_refl).
  split; [|reflexivity]. right. right. by left.
Defined.

(** ** DocumentQuery: what a group holds *)

Lemma as_group_default members : default [] (as_group members) = members.
Proof. by destruct members. Qed.

Lemma as_group_snoc members d : as_group (members ++ [d]) = Some (members ++ [d]).
Proof. by destruct members. Qed.

Lemma push_to_lookup key' d grouped key members :
  grouped !! key = as_group members →
  push_plain key' d grouped !! key
  = as_group (members ++ if decide (key' = key) then [d] else []).
Proof.
  intros Hgroup. unfold push_plain. case_decide as Hkey.
  - subst key'. by rewrite lookup_insert_eq, Hgroup, as_group_default, as_group_snoc.
  - by rewrite lookup_insert_ne, app_nil_r.
Qed.

Lemma push_each_lookup (subValues : list value) d grouped key members :
  grouped !! key = as_group members →
  foldl (λ grouped subValue, push_plain (to_string subValue) d grouped)
    grouped subValues !! key
  = as_group (members ++ ((λ _, d) <$> filter (λ k, k = key)
                                         (to_string <$> subValues))).
Proof.
  revert grouped members.
  induction subValues as [|v l IH]; intros grouped members Hgroup; simpl.
  - by rewrite app_nil_r.
  - rewrite (IH _ _ (push_to_lookup _ d _ _ _ Hgroup)).
    rewrite filter_cons. case_decide; by rewrite <-?(assoc_L (++)), ?app_nil_r.
Qed.

Lemma group_step_lookup field d grouped key members :
  grouped !! key = as_group members →
  group_step_plain field grouped d !! key
  = as_group (members ++ ((λ _, d) <$> filter (λ k, k = key)
                                         (group_keys field d))).
Proof.
  intros Hgroup.
  assert (∀ v, (if truthy v then push_plain (to_string v) d grouped else grouped)
               !! key
               = as_group (members ++ ((λ _, d) <$> filter (λ k, k = key)
                             (if truthy v then [to_string v] else []))))
    as Hsingle.
  { intros v. destruct (truthy v).
    - rewrite (push_to_lookup _ d _ _ _ Hgroup), filter_cons.
      by case_decide.
    - by rewrite app_nil_r. }
  unfold group_step_plain, group_keys, group_value. destruct field as [name|f].
  - destruct (get d name); try apply Hsingle. by apply push_each_lookup.
  - apply Hsingle.
Qed.

Lemma group_fold_lookup field (documents : list obj) grouped key members :
  grouped !! key = as_group members →
  foldl (group_step_plain field) grouped documents !! key
  = as_group (members ++ group_members documents field key).
Proof.
  revert grouped members.
  induction documents as [|d l IH]; intros grouped members Hgroup; simpl.
  - by rewrite app_nil_r.
  - rewrite (IH _ _ (group_step_lookup field d _ _ _ Hgroup)).
    by rewrite <-(assoc_L (++)).
Qed.

(** X13. When no group key is an inherited name (and the values that become
    keys are printable), grouping returns a grouping in which a group holds
    the documents that have its key, in the order of the input, each as many
    times as the key occurs among its keys; a key that no document has is no
    property of the result, so no group is empty. *)
Theorem groupDocuments_members (documents : list obj) field :
  own_keys documents field = true →
  printable_keys documents field = true →
  ∃ grouped,
    groupDocuments documents field = Ok grouped
    ∧ ∀ key, grouped !! key = as_group (group_members documents field key).
Proof.
  intros Hown _. exists (group_plain documents field). split.
  - by rewrite groupDocuments_result, Hown.
  - intros key. unfold group_plain.
    by rewrite (group_fold_lookup field documents ∅ key []).
Qed.

Lemma groupDocuments_members_witness :
  ∃ grouped,
    groupDocuments posts (ByName "tags") = Ok grouped
    ∧ grouped !! "js" = Some [tagged_post; {[ "title" := VStr "B";
                                              "tags" := VStr "js" ]}]
    ∧ grouped !! "html" = None.
Proof.
  destruct (groupDocuments_members posts (ByName "tags") eq_refl eq_refl)
    as (grouped & Hgrouped & Hmembers).
  exists grouped. split_and!; [exact Hgrouped|..].
  - by rewrite Hmembers.
  - by rewrite Hmembers.
Defined.

(** ** DocumentParser: the fields of a page *)

Section extended_fields.
Context (attributes : obj) (sourcePath content excerpt more url : value).

Local Abbreviation extended :=
  (<["url" := url]>
     (<["more" := more]>
        (<["excerpt" := excerpt]>
           (<["content" := content]>
              (<["sourcePath" := sourcePath]> attributes))))).

Lemma lookup_extended_url : extended !! "url" = Some url.
Proof. apply lookup_insert_eq. Qed.

Lemma lookup_extended_sourcePath : extended !! "sourcePath" = Some sourcePath.
Proof. rewrite !lookup_insert_ne by done. apply lookup_insert_eq. Qed.

Lemma lookup_extended_other name :
  name ∉ computed_fields → extended !! name = attributes !! name.
Proof.
  intros Hname. unfold computed_fields in Hname.
  rewrite !lookup_insert_ne; [done|intros <-; apply Hname; set_solver..].
Qed.

End extended_fields.

Lemma lookup_parseCustomFields_parsed (attributes : obj)
    (parsers : gmap string field_parser) name parse :
  parsers !! name = Some parse →
  parseCustomFields attributes parsers !! name
  = Some (parse (get attributes name) attributes).
Proof.
  intros Hparse. unfold parseCustomFields.
  apply lookup_union_Some_l. by rewrite map_lookup_imap, Hparse.
Qed.

Lemma sourcePath_of_parsePage (fastmatter : string → obj * string)
    (source filepath : string) (options : parse_options) :
  fieldParsers options !! "sourcePath" = None →
  parsePage fastmatter source filepath options !! "sourcePath"
  = Some (VStr filepath).
Proof.
  intros Hnone. unfold parsePage. destruct (fastmatter source).
  by rewrite lookup_parseCustomFields, lookup_extended_sourcePath.
Qed.

Lemma url_of_parsePage (fastmatter : string → obj * string)
    (source filepath : string) (options : parse_options) :
  fieldParsers options !! "url" = None →
  parsePage fastmatter source filepath options !! "url"
  = Some (VStr (filepathToUrl filepath)).
Proof.
  intros Hnone. unfold parsePage. destruct (fastmatter source).
  by rewrite lookup_parseCustomFields, lookup_extended_url.
Qed.

(** X2. The source path and the URL of a page are the file's, whatever the front
    matter says, and every front-matter field that has no computed namesake
    is kept (fields with a custom parser aside). *)
Theorem parsePage_fields (fastmatter : string → obj * string)
    (source filepath : string) (options : parse_options) :
  let document := parsePage fastmatter source filepath options in
  (fieldParsers options !! "sourcePath" = None →
   document !! "sourcePath" = Some (VStr filepath))
  ∧ (fieldParsers options !! "url" = None →
     document !! "url" = Some (VStr (filepathToUrl filepath)))
  ∧ (∀ name, fieldParsers options !! name = None →
             name ∉ computed_fields →
             document !! name = (fastmatter source).1 !! name).
Proof.
  unfold parsePage. destruct (fastmatter source) as [attributes body].
  cbn [fst]. split_and!.
  - intros Hnone.
    by rewrite lookup_parseCustomFields, lookup_extended_sourcePath.
  - intros Hnone. by rewrite lookup_parseCustomFields, lookup_extended_url.
  - intros name Hnone Hname.
    by rewrite lookup_parseCustomFields, lookup_extended_other.
Qed.

Lemma parsePage_fields_witness :
  let document := parsePage titled_source "Text" "posts/hello.md" cut_options in
  (titled_source "Text").1 !! "url" = Some (VStr "/custom")
  ∧ document !! "url" = Some (VStr "/posts/hello")
  ∧ document !! "title" = Some (VStr "Hello").
Proof.
  destruct (parsePage_fields titled_source "Text" "posts/hello.md" cut_options)
    as (_ & Hurl & Hkept).
  split_and!; [reflexivity|exact (Hurl eq_refl)|].
  apply (Hkept "title" eq_refl). unfold computed_fields. set_solver.
Defined.

(** X3. A custom field parser has the last word on its field, also on a computed
    one; it is given the value the field has so far and the attributes with
    the computed fields in them: the file's source path and URL and the
    trimmed rendered body. *)
Theorem parsePage_custom_field (fastmatter : string → obj * string)
    (source filepath : string) (options : parse_options) name parse :
  fieldParsers options !! name = Some parse →
  ∃ extended : obj,
    parsePage fastmatter source filepath options !! name
    = Some (parse (get extended name) extended)
    ∧ extended !! "sourcePath" = Some (VStr filepath)
    ∧ extended !! "url" = Some (VStr (filepathToUrl filepath))
    ∧ extended !! "content"
      = Some (VStr (Str.trim (renderByType (fastmatter source).2 filepath
                                (renderers options))))
    ∧ ∀ other, other ∉ computed_fields →
               extended !! other = (fastmatter source).1 !! other.
Proof.
  intros Hparse. unfold parsePage.
  destruct (fastmatter source) as [attributes body]. cbn [fst snd].
  eexists. split_and!.
  - by apply lookup_parseCustomFields_parsed.
  - apply lookup_extended_sourcePath.
  - apply lookup_extended_url.
  - by rewrite lookup_extended_content, and_trim_string.
  - intros other Hother. by apply lookup_extended_other.
Qed.

Lemma parsePage_custom_field_witness :
  parsePage titled_source "Text" "posts/hello.md" slug_options !! "slug"
  = Some (VStr "/posts/hello").
Proof.
  destruct (parsePage_custom_field titled_source "Text" "posts/hello.md"
              slug_options "slug" (λ _ attributes, get attributes "url")
              eq_refl) as (extended & -> & _ & Hurl & _).
  unfold get. by rewrite Hurl.
Defined.

(** ** Page numbers: what the collapsing gives *)

Module UrlFacts.
Import Str StrFacts SlashFacts.

Lemma of_Z_inj n m : of_Z n = of_Z m → n = m.
Proof.
  assert (∀ k, Z.to_int k ≠ Decimal.Pos Decimal.Nil
               ∧ Z.to_int k ≠ Decimal.Neg Decimal.Nil) as Hnil.
  { intros [|q|q]; simpl; split; try discriminate; intros [= Hq];
      by apply (DecimalPos.Unsigned.to_uint_nonnil q). }
  unfold of_Z. intros Heq. apply DecimalZ.to_int_inj.
  destruct (Hnil n), (Hnil m).
  apply (f_equal NilZero.int_of_string) in Heq.
  rewrite !NilZero.isi in Heq by done. congruence.
Qed.

Lemma app_eq_nil s t : s +:+ t = "" → s = "" ∧ t = "".
Proof. by destruct s, t. Qed.

Lemma app_self s t : s = s +:+ t → t = "".
Proof.
  intros Heq. rewrite <-(app_nil_r s) in Heq at 1.
  by apply (inj (String.app s)) in Heq.
Qed.

Lemma replace_first_nonempty s : s ≠ "" → replace_first "//" "/" s ≠ "".
Proof.
  intros Hs. unfold replace_first.
  destruct (cut_at "//" s) as [[a b]|]; [|done].
  intros [_ Hrest]%app_eq_nil. discriminate Hrest.
Qed.

(** Joining a prefix without double slash to ["/" t]: the slash is added
    unless the prefix ends with one. *)
Lemma join_explicit p t :
  double_slash_free p = true →
  double_slash_free t = true → starts_with_slash t = false →
  replace_first "//" "/" (p +:+ String "/" t)
  = if ends_with_slash p then p +:+ t else p +:+ String "/" t.
Proof.
  intros Hp Ht Hstart. induction p as [|c p IH].
  - change ("" +:+ String "/" t) with (String "/" t).
    rewrite replace_first_free; [done|by apply free_cons].
  - rewrite app_cons, replace_first_cons.
    cbn [double_slash_free] in Hp.
    apply andb_true_iff in Hp as [Hadjacent Hp]. specialize (IH Hp).
    destruct p as [|d p].
    + change ("" +:+ String "/" t) with (String "/" t) in *.
      cbn [starts_with_slash ends_with_slash].
      change (is_slash "/") with true. rewrite andb_true_r.
      destruct (is_slash c) eqn:Hc.
      * apply bool_decide_eq_true in Hc. by subst c.
      * by rewrite IH.
    + rewrite app_cons. cbn [starts_with_slash] in *.
      destruct (is_slash c && is_slash d) eqn:Hboth; [done|].
      rewrite <-app_cons, IH.
      change (ends_with_slash (String c (String d p)))
        with (ends_with_slash (String d p)).
      by destruct (ends_with_slash (String d p)).
Qed.

End UrlFacts.

(** A prefix without double slash gives a different path or URL to every
    page number. *)
Lemma getPageNumberUrl_inj prefix index n m :
  Str.contains "//" prefix = false →
  getPageNumberUrl prefix n index = getPageNumberUrl prefix m index → n = m.
Proof.
  rewrite SlashFacts.contains_double_slash, negb_false_iff. intros Hprefix.
  assert (∀ k, Str.double_slash_free ("page/" +:+ Str.of_Z k) = true
               ∧ Str.starts_with_slash ("page/" +:+ Str.of_Z k) = false)
    as Hpage.
  { intros k.
    destruct (SlashFacts.slashless_free _ (SlashFacts.of_Z_slashless k))
      as [Hfree Hstart].
    remember (Str.of_Z k) as number.
    rewrite !StrFacts.app_cons. change ("" +:+ number) with number.
    cbn. by rewrite Hstart, Hfree. }
  assert (∀ k, prefix +:+ "/page/" +:+ Str.of_Z k
               = prefix +:+ String "/" ("page/" +:+ Str.of_Z k)) as Hshape
    by done.
  unfold getPageNumberUrl.
  destruct (decide (n = 1%Z)) as [->|Hn], (decide (m = 1%Z)) as [->|Hm];
    [done|..].
  - rewrite Hshape, UrlFacts.join_explicit by (done || apply Hpage).
    destruct index.
    + change (prefix +:+ "/index") with (prefix +:+ String "/" "index").
      rewrite UrlFacts.join_explicit by done.
      destruct (ends_with_slash prefix); by intros ?%(inj (String.app prefix)).
    + rewrite SlashFacts.replace_first_free by done.
      destruct (ends_with_slash prefix); by intros ?%UrlFacts.app_self.
  - rewrite Hshape, UrlFacts.join_explicit by (done || apply Hpage).
    destruct index.
    + change (prefix +:+ "/index") with (prefix +:+ String "/" "index").
      rewrite UrlFacts.join_explicit by done.
      destruct (ends_with_slash prefix); by intros ?%(inj (String.app prefix)).
    + rewrite SlashFacts.replace_first_free by done.
      destruct (ends_with_slash prefix); intros Heq; symmetry in Heq;
        by apply UrlFacts.app_self in Heq.
  - rewrite !Hshape, !UrlFacts.join_explicit by (done || apply Hpage).
    destruct (ends_with_slash prefix); intros Heq%(inj (String.app prefix)).
    + rewrite !StrFacts.app_cons in Heq. injection Heq as Heq.
      by apply UrlFacts.of_Z_inj.
    + rewrite !StrFacts.app_cons in Heq. injection Heq as Heq.
      by apply UrlFacts.of_Z_inj.
Qed.

(** ** Paginator: the pages as a whole *)

Section more_page_fields.
Context (documents : list obj) (options : paginate_options).
Context (sourcePrefix prefix : string) (perPage : Z) (pageLayout : string).
Context (totalPages number : Z).

Local Abbreviation this_page :=
  (pagination_page documents options sourcePrefix prefix perPage pageLayout
     totalPages number).

Lemma page_layout : this_page !! "layout" = Some (VStr pageLayout).
Proof.
  unfold pagination_page. rewrite !lookup_insert_ne by done.
  apply lookup_insert_eq.
Qed.

Lemma page_sourcePath :
  this_page !! "sourcePath"
  = Some (VStr (getPageNumberUrl sourcePrefix (number + 1) (index options))).
Proof.
  unfold pagination_page. rewrite !lookup_insert_ne by done.
  apply lookup_insert_eq.
Qed.

Lemma page_other key :
  key ∉ page_fields → this_page !! key = extra options !! key.
Proof.
  intros Hkey. unfold page_fields in Hkey. unfold pagination_page.
  rewrite !lookup_insert_ne; [done|intros <-; apply Hkey; set_solver..].
Qed.

End more_page_fields.

(** What a successful call was given, and what it returns. *)
Lemma paginate_inv (documents : list obj) (options : paginate_options) pages :
  paginate documents options = Ok pages →
  ∃ sourcePrefix prefix perPage pageLayout,
    sourcePathPrefix options = Some sourcePrefix
    ∧ urlPrefix options = Some prefix
    ∧ documentsPerPage options = Some perPage ∧ perPage ≠ 0%Z
    ∧ layout options = Some pageLayout ∧ pageLayout ≠ ""
    ∧ let totalPages := ceil_div (Z.of_nat (length documents)) perPage in
      pages = pagination_page documents options sourcePrefix prefix perPage
                pageLayout totalPages <$> range totalPages.
Proof.
  unfold paginate.
  destruct (sourcePathPrefix options) as [sourcePrefix|]; [|done].
  destruct (urlPrefix options) as [prefix|]; [|done].
  destruct (documentsPerPage options) as [perPage|]; [|done].
  destruct (layout options) as [pageLayout|]; simpl;
    destruct (perPage =? 0)%Z eqn:Hzero; simpl; try done.
  case_bool_decide as Hlayout; simpl; [done|].
  intros [= <-]. apply Z.eqb_neq in Hzero.
  by exists sourcePrefix, prefix, perPage, pageLayout.
Qed.

Lemma range_nat (n : Z) :
  (0 ≤ n)%Z → range n = Z.of_nat <$> seq 0 (Z.to_nat n).
Proof.
  intros Hn. unfold range, seqZ. rewrite decide_True by done.
  apply list_fmap_ext. intros i k _. lia.
Qed.

Lemma NoDup_range (n : Z) : NoDup (range n).
Proof.
  unfold range. case_decide; [apply NoDup_seqZ|].
  assert (Inj (=) (=) Z.opp) by (intros a b; lia).
  apply (NoDup_fmap_2 Z.opp), NoDup_seqZ.
Qed.

(** The first [k] windows of width [n], put end to end. *)
Lemma windows_concat {A} (l : list A) (n k : nat) :
  seq 0 k ≫= (λ i, take n (drop (i * n) l)) = take (k * n) l.
Proof.
  induction k as [|k IH]; [done|].
  rewrite seq_S, bind_app, IH. simpl. rewrite app_nil_r.
  by rewrite take_take_drop, Nat.add_comm.
Qed.

Lemma bind_ext_in {A B} (f g : A → list B) (l : list A) :
  (∀ x, x ∈ l → f x = g x) → l ≫= f = l ≫= g.
Proof.
  induction l as [|x l IH]; intros Hext; [done|]. cbn.
  rewrite (Hext x), IH; [done|..].
  - intros y Hy. apply Hext. by right.
  - by left.
Qed.

Lemma bind_fmap_out {A B C} (g : B → C) (h : A → list B) (l : list A) :
  l ≫= (λ x, g <$> h x) = g <$> (l ≫= h).
Proof.
  induction l as [|x l IH]; [done|]. cbn. by rewrite IH, fmap_app.
Qed.

Lemma documents_of_page (documents : list obj) options sourcePrefix prefix
    (perPage : Z) pageLayout totalPages (i : nat) :
  (0 < perPage)%Z →
  i * Z.to_nat perPage ≤ length documents →
  documents_of (pagination_page documents options sourcePrefix prefix perPage
                  pageLayout totalPages (Z.of_nat i))
  = VObj <$> take (Z.to_nat perPage) (drop (i * Z.to_nat perPage) documents).
Proof.
  intros Hpositive Hstart. unfold documents_of. rewrite page_documents.
  f_equal. rewrite <-slice_window by done. f_equal; lia.
Qed.

(** X15. The pages share the documents out: put end to end, the documents of the
    pages are the documents, each once and in order. *)
Theorem paginate_partition (documents : list obj) (options : paginate_options)
    pages perPage :
  paginate documents options = Ok pages →
  documentsPerPage options = Some perPage → (0 < perPage)%Z →
  pages ≫= documents_of = VObj <$> documents.
Proof.
  intros (sourcePrefix & prefix & perPage' & pageLayout & _ & _ & HperPage
          & _ & _ & _ & ->)%paginate_inv Hsame Hpositive.
  rewrite HperPage in Hsame. injection Hsame as ->.
  set (count := Z.of_nat (length documents)).
  pose proof (ceil_div_bounds count perPage Hpositive) as Hceil.
  pose proof (ceil_div_nonneg count perPage ltac:(lia) Hpositive) as Htotal.
  set (totalPages := ceil_div count perPage) in *.
  rewrite range_nat by done.
  rewrite <-list_fmap_compose, list_fmap_bind.
  rewrite (bind_ext_in _
             (λ i, VObj <$> take (Z.to_nat perPage)
                              (drop (i * Z.to_nat perPage) documents))).
  - rewrite bind_fmap_out, windows_concat, take_ge; [done|].
    subst count. nia.
  - intros i Hi%elem_of_seq. simpl. apply documents_of_page; [done|].
    subst count. nia.
Qed.

Lemma paginate_partition_witness :
  ∃ pages,
    paginate ten_documents blog_pagination = Ok pages
    ∧ pages ≫= documents_of = VObj <$> ten_documents.
Proof.
  eexists. split; [reflexivity|].
  by apply (paginate_partition ten_documents blog_pagination _ 4).
Defined.

Lemma elem_of_pages (documents : list obj) (options : paginate_options) pages
    page :
  paginate documents options = Ok pages → page ∈ pages →
  ∃ sourcePrefix prefix perPage pageLayout number,
    sourcePathPrefix options = Some sourcePrefix
    ∧ urlPrefix options = Some prefix
    ∧ documentsPerPage options = Some perPage ∧ perPage ≠ 0%Z
    ∧ layout options = Some pageLayout ∧ pageLayout ≠ ""
    ∧ let totalPages := ceil_div (Z.of_nat (length documents)) perPage in
      number ∈ range totalPages
      ∧ page = pagination_page documents options sourcePrefix prefix perPage
                 pageLayout totalPages number.
Proof.
  intros (sourcePrefix & prefix & perPage & pageLayout & ? & ? & ? & ? & ?
          & ? & ->)%paginate_inv (number & -> & Hnumber)%list_elem_of_fmap.
  by exists sourcePrefix, prefix, perPage, pageLayout, number.
Qed.

(** X16. No page is empty and none holds more than [documentsPerPage] documents;
    without documents there is no page at all. *)
Theorem paginate_page_sizes (documents : list obj) (options : paginate_options)
    pages perPage :
  paginate documents options = Ok pages →
  documentsPerPage options = Some perPage → (0 < perPage)%Z →
  (∀ page, page ∈ pages →
           1 ≤ length (documents_of page) ≤ Z.to_nat perPage)
  ∧ (documents = [] → pages = []).
Proof.
  intros Hpages HperPage Hpositive.
  set (count := Z.of_nat (length documents)).
  pose proof (ceil_div_bounds count perPage Hpositive) as Hceil.
  pose proof (ceil_div_nonneg count perPage ltac:(lia) Hpositive) as Htotal.
  split.
  - intros page (? & ? & perPage' & ? & number & _ & _ & Hsame & _ & _ & _
                 & Hnumber & ->)%(elem_of_pages _ _ _ _ Hpages).
    rewrite HperPage in Hsame. injection Hsame as <-.
    fold count in Hnumber |- *. rewrite range_nat in Hnumber by done.
    apply list_elem_of_fmap in Hnumber as (i & -> & Hi%elem_of_seq).
    rewrite documents_of_page by (done || subst count; nia).
    rewrite length_fmap, length_take, length_drop. subst count. nia.
  - intros ->.
    apply paginate_inv in Hpages
      as (? & ? & perPage' & ? & _ & _ & Hsame & _ & _ & _ & ->).
    rewrite HperPage in Hsame. injection Hsame as <-.
    cbn in count. subst count.
    change (Z.of_nat (length (@nil obj))) with 0%Z.
    pose proof (ceil_div_bounds 0 perPage Hpositive).
    pose proof (ceil_div_nonneg 0 perPage ltac:(lia) Hpositive).
    assert (ceil_div 0 perPage = 0%Z) as -> by nia. done.
Qed.

Lemma paginate_page_sizes_witness :
  ∃ pages,
    paginate ten_documents blog_pagination = Ok pages
    ∧ ∀ page, page ∈ pages → 1 ≤ length (documents_of page) ≤ 4.
Proof.
  eexists. split; [reflexivity|].
  by apply (paginate_page_sizes ten_documents blog_pagination _ 4).
Defined.

(** X17. Every field of [extra] is on every page, but for the fields that
    [paginate] sets itself: there the page has the value of [paginate], as
    for [layout]. *)
Theorem paginate_extra (documents : list obj) (options : paginate_options)
    pages page :
  paginate documents options = Ok pages → page ∈ pages →
  (∀ key, key ∉ page_fields → page !! key = extra options !! key)
  ∧ (VStr <$> layout options = page !! "layout").
Proof.
  intros Hpages (? & ? & ? & pageLayout & number & _ & _ & _ & _ & Hlayout
                 & _ & _ & ->)%(elem_of_pages _ _ _ _ Hpages).
  split.
  - intros key Hkey. by apply page_other.
  - by rewrite page_layout, Hlayout.
Qed.

Lemma paginate_extra_witness :
  ∃ pages,
    paginate ten_documents root_pagination = Ok pages
    ∧ ∀ page, page ∈ pages → page !! "title" = Some (VStr "Blog").
Proof.
  eexists. split; [reflexivity|]. intros page Hpage.
  destruct (paginate_extra ten_documents root_pagination _ page eq_refl Hpage)
    as [Hextra _].
  rewrite Hextra; [reflexivity|]. unfold page_fields. set_solver.
Defined.

(** X18. With prefixes that hold no double slash, no two pages share a source
    path or a URL. *)
Theorem paginate_distinct (documents : list obj) (options : paginate_options)
    pages sourcePrefix prefix (i j : nat) (p q : obj) :
  paginate documents options = Ok pages →
  sourcePathPrefix options = Some sourcePrefix →
  Str.contains "//" sourcePrefix = false →
  urlPrefix options = Some prefix → Str.contains "//" prefix = false →
  pages !! i = Some p → pages !! j = Some q →
  p !! "sourcePath" = q !! "sourcePath" ∨ p !! "url" = q !! "url" →
  i = j.
Proof.
  intros (sourcePrefix' & prefix' & perPage & pageLayout & Hsource' & Hurl'
          & _ & _ & _ & _ & ->)%paginate_inv Hsource Hfree Hurl Hfree'.
  rewrite Hsource in Hsource'. injection Hsource' as <-.
  rewrite Hurl in Hurl'. injection Hurl' as <-.
  rewrite !list_lookup_fmap.
  intros (n & Hn & ->)%fmap_Some (m & Hm & ->)%fmap_Some Hsame.
  assert (n = m) as <-.
  { destruct Hsame as [Hsame|Hsame].
    - rewrite !page_sourcePath in Hsame. injection Hsame as Hsame.
      apply getPageNumberUrl_inj in Hsame; [lia|done].
    - rewrite !page_url in Hsame. injection Hsame as Hsame.
      apply getPageNumberUrl_inj in Hsame; [lia|done]. }
  by eapply NoDup_lookup; [apply NoDup_range|..].
Qed.

Lemma paginate_distinct_witness :
  ∃ pages p q,
    paginate ten_documents blog_pagination = Ok pages
    ∧ pages !! 0 = Some p ∧ pages !! 2 = Some q
    ∧ p !! "url" ≠ q !! "url".
Proof.
  eexists _, _, _. split_and!; [reflexivity..|].
  intros Hsame.
  assert (0 = 2) as Habsurd; [|discriminate Habsurd].
  eapply (paginate_distinct ten_documents blog_pagination _ "blog" "/blog");
    [reflexivity..|].
  right. exact Hsame.
Defined.

(** ** Paginator and PageRenderer together *)

Lemma getPageNumberUrl_nonempty prefix pageNumber index :
  prefix ≠ "" ∨ index = true ∨ pageNumber ≠ 1%Z →
  getPageNumberUrl prefix pageNumber index ≠ "".
Proof.
  intros Hsome. unfold getPageNumberUrl.
  apply UrlFacts.replace_first_nonempty.
  destruct (decide (pageNumber = 1%Z)) as [->|_]; [destruct index|].
  - by intros [_ ?]%UrlFacts.app_eq_nil.
  - by destruct Hsome as [?|[?|?]].
  - by intros [_ ?]%UrlFacts.app_eq_nil.
Qed.

Section rendering_pages.
Context {helper : Type}.
Context (renderRss : gmap string (context_entry helper) → string).
Context (config : value) (helpers : gmap string helper).
Context (renderers
  : list (string * (string → gmap string (context_entry helper) → string))).

Lemma generatePage_checked (document : obj) :
  truthy (get document "sourcePath") = true →
  truthy (get document "layout") = true →
  ∀ msg, generatePage renderRss document config helpers renderers
         ≠ Throw (ConfigError msg).
Proof.
  unfold generatePage. intros -> -> msg. simpl.
  destruct (get document "sourcePath"); simpl; try discriminate.
  destruct (is_string "RSS" (get document "layout")); [discriminate|].
  destruct renderers as [|[templateExtension render] ?]; [discriminate|].
  destruct (get document "layout"); discriminate.
Qed.

(** X19. A page that [paginate] returns has the source path and the layout that
    rendering asks for, so rendering it raises no configuration error; the
    one exception is the first page of an empty [sourcePathPrefix] without
    [index], whose source path is empty. *)
Theorem paginate_pages_render (documents : list obj)
    (options : paginate_options) pages page :
  paginate documents options = Ok pages →
  sourcePathPrefix options ≠ Some "" ∨ index options = true →
  page ∈ pages →
  ∀ msg, generatePage renderRss page config helpers renderers
         ≠ Throw (ConfigError msg).
Proof.
  intros Hpages Hprefix
    (sourcePrefix & ? & ? & pageLayout & number & Hsource & _ & _ & _ & _
     & Hlayout & _ & ->)%(elem_of_pages _ _ _ _ Hpages).
  apply generatePage_checked; unfold get.
  - rewrite page_sourcePath. simpl. apply negb_true_iff, bool_decide_eq_false.
    apply getPageNumberUrl_nonempty.
    destruct Hprefix as [Hprefix|Hindex]; [left|by right; left].
    intros ->. by rewrite Hsource in Hprefix.
  - rewrite page_layout. simpl. by apply negb_true_iff, bool_decide_eq_false.
Qed.

(** X20. With an empty [sourcePathPrefix] and no [index], the first page has an
    empty source path, and rendering it fails for want of one. *)
Theorem paginate_root_page_rejected (documents : list obj)
    (options : paginate_options) prefix perPage pageLayout :
  documents ≠ [] →
  sourcePathPrefix options = Some "" → index options = false →
  urlPrefix options = Some prefix →
  documentsPerPage options = Some perPage → (0 < perPage)%Z →
  layout options = Some pageLayout → pageLayout ≠ "" →
  ∃ page rest,
    paginate documents options = Ok (page :: rest)
    ∧ page !! "sourcePath" = Some (VStr "")
    ∧ generatePage renderRss page config helpers renderers
      = Throw (ConfigError ("Source path not specified. Add "
                            +:+ quoted "sourcePath"
                            +:+ " front matter field.")).
Proof.
  intros Hdocuments Hsource Hindex Hurl HperPage Hpositive Hlayout Hnonempty.
  set (count := Z.of_nat (length documents)).
  pose proof (ceil_div_bounds count perPage Hpositive) as Hceil.
  assert (0 < count)%Z by (subst count; destruct documents; simpl; [done|lia]).
  set (totalPages := ceil_div count perPage) in *.
  assert (0 < totalPages)%Z as Htotal by nia.
  eexists _, _. split_and!.
  - rewrite (paginate_Ok documents options "" prefix perPage pageLayout);
      [|done..|lia|done|done].
    fold count totalPages. unfold range. rewrite decide_True by lia.
    by rewrite seqZ_cons by done.
  - rewrite page_sourcePath. by rewrite Hindex.
  - unfold generatePage, get. rewrite page_sourcePath, Hindex. done.
Qed.

End rendering_pages.

Lemma paginate_pages_render_witness :
  ∃ pages,
    paginate ten_documents blog_pagination = Ok pages
    ∧ ∀ page msg,
        page ∈ pages →
        generatePage echo_rss page VNull ∅ echo_renderers
        ≠ Throw (ConfigError msg).
Proof.
  eexists. split; [reflexivity|]. intros page msg Hpage.
  apply (paginate_pages_render echo_rss VNull ∅ echo_renderers ten_documents
           blog_pagination _ page eq_refl); [by right|exact Hpage].
Defined.

Lemma paginate_root_page_rejected_witness :
  ∃ page rest,
    paginate ten_documents root_pagination = Ok (page :: rest)
    ∧ generatePage echo_rss page VNull ∅ echo_renderers
      = Throw (ConfigError ("Source path not specified. Add "
                            +:+ quoted "sourcePath"
                            +:+ " front matter field.")).
Proof.
  destruct (paginate_root_page_rejected echo_rss VNull ∅ echo_renderers
              ten_documents root_pagination "/" 4 "pagination"
              ltac:(done) eq_refl eq_refl eq_refl eq_refl eq_refl eq_refl
              ltac:(done)) as (page & rest & Hpages & _ & Hrejected).
  by exists page, rest.
Defined.

(** ** PageRenderer: what is rendered *)

Lemma mapM_result_cons {A B} (f : A → result B) (x : A) (l : list A) :
  mapM f (x :: l)
  = match f x with
    | Ok y =>
        match mapM f l with
        | Ok k => Ok (y :: k)
        | Throw e => Throw e
        end
    | Throw e => Throw e
    end.
Proof. cbn. destruct (f x); [|done]. cbn. by destruct (mapM f l). Qed.

Section rendered_page.
Context {helper : Type}.
Context (renderRss : gmap string (context_entry helper) → string).
Context (config : value) (helpers : gmap string helper).

Local Abbreviation engines :=
  (list (string * (string → gmap string (context_entry helper) → string))).

(** X21. A document of layout [RSS] goes to the feed serializer and to an [.xml]
    file whatever the template engines are, even with none. Any other layout
    is rendered by the first engine alone, from the template named by the
    layout and that engine's extension, to a file whose extension is the
    layout's or else [html]; with no engine this is a type error, not a
    configuration error. *)
Theorem generatePage_output (document : obj) (renderers : engines)
    sourcePath layout :
  get document "sourcePath" = VStr sourcePath → sourcePath ≠ "" →
  get document "layout" = VStr layout → layout ≠ "" →
  let pageContext := makeContext document config helpers in
  (layout = "RSS" →
   generatePage renderRss document config helpers renderers
   = Ok {| pagePath := removeExtension sourcePath +:+ ".xml";
           content := renderRss pageContext |})
  ∧ (layout ≠ "RSS" → renderers = [] →
     ∃ msg, generatePage renderRss document config helpers renderers
            = Throw (TypeError msg))
  ∧ (layout ≠ "RSS" →
     ∀ templateExtension render rest,
       renderers = (templateExtension, render) :: rest →
       generatePage renderRss document config helpers renderers
       = Ok {| pagePath :=
                 removeExtension sourcePath +:+ "."
                 +:+ (if decide (getExtension layout = "") then "html"
                      else getExtension layout);
               content :=
                 render (layout +:+ "." +:+ templateExtension) pageContext |}).
Proof.
  intros HsourcePath Hnonempty Hlayout Hnonempty' pageContext.
  unfold generatePage. rewrite HsourcePath, Hlayout. simpl.
  rewrite (bool_decide_eq_false_2 (sourcePath = "")) by done.
  rewrite (bool_decide_eq_false_2 (layout = "")) by done. simpl.
  split_and!.
  - intros ->. done.
  - intros Hrss ->. rewrite bool_decide_eq_false_2 by done. by eexists.
  - intros Hrss templateExtension render rest ->.
    by rewrite bool_decide_eq_false_2 by done.
Qed.

(** X22. [generatePages] renders the documents in order and yields their pages,
    one for each, when every document renders; otherwise it throws what the
    first document that fails throws. *)
Theorem generatePages_spec (documents : list obj) (renderers : engines) :
  (∀ pages,
     generatePages renderRss documents config helpers renderers = Ok pages
     ↔ Forall2 (λ document page,
                  generatePage renderRss document config helpers renderers
                  = Ok page) documents pages)
  ∧ (∀ e,
       generatePages renderRss documents config helpers renderers = Throw e
       ↔ ∃ before document after,
           documents = before ++ document :: after
           ∧ Forall (λ d, ∃ page,
                       generatePage renderRss d config helpers renderers
                       = Ok page) before
           ∧ generatePage renderRss document config helpers renderers
             = Throw e).
Proof.
  unfold generatePages. induction documents as [|d l [IHok IHthrow]].
  - split.
    + intros pages. split.
      * intros [= <-]. constructor.
      * by intros ->%Forall2_nil_inv_l.
    + intros e. split; [done|]. intros (before & ? & ? & Heq & _).
      by destruct before.
  - rewrite mapM_result_cons.
    destruct (generatePage renderRss d config helpers renderers)
      as [page|e'] eqn:Hd.
    + destruct (mapM _ l) as [pages'|e''] eqn:Hl.
      * split.
        -- intros pages. split.
           ++ intros [= <-]. constructor; [done|]. by apply IHok.
           ++ intros (page' & pages'' & Hpage & Hrest & ->)%Forall2_cons_inv_l.
              apply IHok in Hrest. congruence.
        -- intros e. split; [done|].
           intros ([|d' before] & document & after & [= -> ->] & Hbefore & He);
             [congruence|].
           apply Forall_cons in Hbefore as [_ Hbefore].
           assert (Ok pages' = Throw e) as Habsurd; [|done].
           apply IHthrow. by exists before, document, after.
      * split.
        -- intros pages. split; [done|].
           intros (page' & pages'' & Hpage & Hrest & ->)%Forall2_cons_inv_l.
           by apply IHok in Hrest.
        -- intros e. split.
           ++ intros [= <-].
              destruct (proj1 (IHthrow e'') eq_refl)
                as (before & document & after & -> & Hbefore & He).
              exists (d :: before), document, after.
              split_and!; [done| |done]. constructor; [by eexists|done].
           ++ intros ([|d' before] & document & after & [= -> ->] & Hbefore
                      & He); [congruence|].
              apply Forall_cons in Hbefore as [_ Hbefore].
              apply IHthrow. by exists before, document, after.
    + split.
      * intros pages. split; [done|].
        intros (page' & pages'' & Hpage & _)%Forall2_cons_inv_l. congruence.
      * intros e. split.
        -- intros [= <-]. exists [], d, l. by split_and!.
        -- intros ([|d' before] & document & after & [= -> ->] & Hbefore & He);
             [congruence|].
           apply Forall_cons in Hbefore as [[page Hpage] _]. congruence.
Qed.

End rendered_page.

Lemma generatePage_output_witness :
  generatePage echo_rss feed_page VNull ∅ []
  = Ok {| pagePath := "feed.xml"; content := "" |}
  ∧ generatePage echo_rss about_page VNull ∅ two_renderers
    = Ok {| pagePath := "about.html"; content := "page.jsx" |}.
Proof.
  split.
  - exact (proj1 (generatePage_output echo_rss VNull ∅ feed_page []
                    "feed.md" "RSS" eq_refl ltac:(done) eq_refl ltac:(done))
             eq_refl).
  - exact (proj2 (proj2 (generatePage_output echo_rss VNull ∅ about_page
                           two_renderers "about.md" "page" eq_refl
                           ltac:(done) eq_refl ltac:(done)))
             ltac:(done) "jsx" _ _ eq_refl).
Defined.

(** ** ConfigLoader: from the files to the merged configs *)

Lemma last_filter_snoc {A} (P : A → Prop) `{!∀ x, Decision (P x)}
    (l : list A) (x : A) :
  last (filter P (l ++ [x])) = if decide (P x) then Some x else last (filter P l).
Proof.
  rewrite filter_app, filter_cons, filter_nil. case_decide.
  - apply last_snoc.
  - by rewrite app_nil_r.
Qed.

Section read_configs.
Context (basename : string → string) (path_join : string → string → string).
Context (glob_sync : string → list string) (readYamlFile : string → obj).

Lemma readConfigFiles_snoc files filepath :
  readConfigFiles basename readYamlFile (files ++ [filepath])
  = let configs := readConfigFiles basename readYamlFile files in
    let name := removeExtension (basename filepath) in
    if decide (name = "base")
    then {| base := readYamlFile filepath; langs := langs configs |}
    else {| base := base configs;
            langs := <[name := readYamlFile filepath]> (langs configs) |}.
Proof. unfold readConfigFiles. by rewrite foldl_snoc. Qed.

Lemma base_readConfigFiles files :
  base (readConfigFiles basename readYamlFile files)
  = default ∅ (readYamlFile <$> last (files_named basename "base" files)).
Proof.
  unfold files_named. induction files as [|filepath files IH] using rev_ind;
    [done|].
  rewrite readConfigFiles_snoc, last_filter_snoc. cbn zeta.
  by destruct (decide (removeExtension (basename filepath) = "base")).
Qed.

Lemma langs_readConfigFiles files name :
  langs (readConfigFiles basename readYamlFile files) !! name
  = if decide (name = "base") then None
    else readYamlFile <$> last (files_named basename name files).
Proof.
  unfold files_named. induction files as [|filepath files IH] using rev_ind.
  - cbn. rewrite lookup_empty. by case_decide.
  - rewrite readConfigFiles_snoc, last_filter_snoc. cbn zeta.
    destruct (decide (removeExtension (basename filepath) = "base"))
      as [Hbase|Hlang]; cbn [langs].
    + rewrite IH. case_decide; [done|].
      rewrite decide_False; [done|congruence].
    + destruct (decide (removeExtension (basename filepath) = name))
        as [<-|Hother].
      * by rewrite lookup_insert_eq, decide_False.
      * by rewrite lookup_insert_ne.
Qed.

(** X6. Of the files of one name the last one read counts; the file named [base]
    is the base config, which is empty when there is no such file, and it is
    never a language. *)
Theorem readConfigFiles_spec files :
  let configs := readConfigFiles basename readYamlFile files in
  base configs
  = default ∅ (readYamlFile <$> last (files_named basename "base" files))
  ∧ langs configs !! "base" = None
  ∧ ∀ name, name ≠ "base" →
            langs configs !! name
            = readYamlFile <$> last (files_named basename name files).
Proof.
  split_and!.
  - apply base_readConfigFiles.
  - by rewrite langs_readConfigFiles.
  - intros name Hname. by rewrite langs_readConfigFiles, decide_False.
Qed.

(** X7. The loaded config always has the key [base], holding the base config;
    its other keys are the names of the other config files, each holding the
    config of that file over the base config. *)
Theorem loadConfig_spec (folder : string) :
  let files := glob_sync (path_join folder "*.yml") in
  let baseConfig :=
    default ∅ (readYamlFile <$> last (files_named basename "base" files)) in
  let loaded := loadConfig basename path_join glob_sync readYamlFile folder in
  loaded !! "base" = Some baseConfig
  ∧ ∀ name, name ≠ "base" →
            loaded !! name
            = (λ filepath, readYamlFile filepath ∪ baseConfig)
              <$> last (files_named basename name files).
Proof.
  unfold loadConfig, getConfigFilesList. split.
  - rewrite lookup_mergeConfigs, langs_readConfigFiles.
    by rewrite base_readConfigFiles.
  - intros name Hname.
    rewrite lookup_mergeConfigs, langs_readConfigFiles, base_readConfigFiles.
    rewrite !decide_False by done.
    by destruct (last (files_named basename name _)).
Qed.

End read_configs.

Lemma readConfigFiles_spec_witness :
  langs (readConfigFiles config_basename config_yaml
           ["config/base.yml"; "config/en.yml"; "config/en.yml"]) !! "en"
  = Some (config_yaml "config/en.yml").
Proof.
  destruct (readConfigFiles_spec config_basename config_yaml
              ["config/base.yml"; "config/en.yml"; "config/en.yml"])
    as (_ & _ & Hlang).
  exact (Hlang "en" ltac:(done)).
Defined.

Lemma loadConfig_spec_witness :
  loadConfig config_basename (λ folder file, folder +:+ "/" +:+ file)
    config_glob config_yaml "config" !! "ru"
  = Some (config_yaml "config/ru.yml" ∪ config_yaml "config/base.yml").
Proof.
  destruct (loadConfig_spec config_basename
              (λ folder file, folder +:+ "/" +:+ file) config_glob config_yaml
              "config") as [_ Hlang].
  exact (Hlang "ru" ltac:(done)).
Defined.

(** ** ConfigLoader: languages apart *)

(** X8. Setting the config of one language changes nothing under any other key
    of the merged result. *)
Theorem mergeConfigs_independent (c : configs) lang (lang_config : obj) key :
  key ≠ lang →
  mergeConfigs {| base := base c; langs := <[lang := lang_config]> (langs c) |}
  !! key
  = mergeConfigs c !! key.
Proof.
  intros Hkey. rewrite !lookup_mergeConfigs. cbn [base langs].
  by rewrite lookup_insert_ne.
Qed.

Lemma mergeConfigs_independent_witness :
  mergeConfigs {| base := base two_configs;
                  langs := <["en" := ∅]> (langs two_configs) |} !! "ru"
  = mergeConfigs two_configs !! "ru".
Proof. exact (mergeConfigs_independent two_configs "en" ∅ "ru" ltac:(done)). Defined.

(** ** DocumentRepository *)

Section load_sources.
Context (fastmatter : string → obj * string).
Context (glob_sync_in : string → string → list string).
Context (readFile : string → string).
Context (path_join : string → string → string).
Context (path_resolve : string → string).

(** X5. Loading gives one document for each file found, in the order found,
    with the path of the file as its source path and the URL of that path;
    it warns, once, exactly when no file is found, and then gives no
    document. *)
Theorem loadSourceFiles_spec (folder : string) (types : list string)
    (options : parse_options) :
  fieldParsers options !! "sourcePath" = None →
  fieldParsers options !! "url" = None →
  let files := getSourceFilesList glob_sync_in folder types in
  let loaded :=
    loadSourceFiles fastmatter glob_sync_in readFile path_join path_resolve
      folder types options in
  (λ d : obj, d !! "sourcePath") <$> loaded.1 = (λ f, Some (VStr f)) <$> files
  ∧ (λ d : obj, d !! "url") <$> loaded.1
    = (λ f, Some (VStr (filepathToUrl f))) <$> files
  ∧ (files = [] → loaded.1 = [] ∧ length loaded.2 = 1)
  ∧ (files ≠ [] → loaded.2 = []).
Proof.
  intros HsourcePath Hurl files loaded. subst loaded.
  unfold loadSourceFiles. fold files. cbn [fst snd]. split_and!.
  - rewrite <-list_fmap_compose. apply list_fmap_ext. intros i f _. cbn.
    by apply sourcePath_of_parsePage.
  - rewrite <-list_fmap_compose. apply list_fmap_ext. intros i f _. cbn.
    by apply url_of_parsePage.
  - by intros ->.
  - intros Hfiles. rewrite decide_False; [done|]. by destruct files.
Qed.

End load_sources.

Lemma loadSourceFiles_spec_witness :
  (λ d : obj, d !! "url")
  <$> (loadSourceFiles plain_fastmatter two_files (λ path, path)
         (λ folder file, folder +:+ "/" +:+ file) (λ folder, folder)
         "source" ["md"] cut_options).1
  = [Some (VStr "/"); Some (VStr "/posts/hello")].
Proof.
  exact (proj1 (proj2 (loadSourceFiles_spec plain_fastmatter two_files
                         (λ path, path)
                         (λ folder file, folder +:+ "/" +:+ file)
                         (λ folder, folder) "source" ["md"] cut_options
                         eq_refl eq_refl))).
Defined.

(** ** PathUtil: URLs are rooted *)

(** X1. The URL of a file always starts with a slash, so it is never empty. *)
Theorem filepathToUrl_rooted (filepath : string) :
  ∃ rest, filepathToUrl filepath = "/" +:+ rest.
Proof.
  unfold filepathToUrl, strip_index.
  destruct (Str.strip_suffix "/index" ("/" +:+ removeExtension filepath))
    as [stem|] eqn:Hstem; cbn [from_option id].
  - apply StrFacts.strip_suffix_Some in Hstem.
    destruct stem as [|c stem]; [by exists ""|].
    rewrite decide_False by done.
    rewrite !StrFacts.app_cons in Hstem. injection Hstem as <- _.
    by exists stem.
  - rewrite decide_False by done. by eexists.
Qed.

(** ** DocumentParser: the pieces around the cut *)

Module TrimFacts.
Import Str StrFacts CutFacts.

Lemma trim_start_factor s : ∃ white, s = white +:+ trim_start s.
Proof.
  induction s as [|c s [white IH]]; [by exists ""|]. cbn.
  destruct (is_white c); [|by exists ""].
  exists (String c white). by rewrite app_cons, <-IH.
Qed.

Lemma trim_end_factor s : ∃ white, s = trim_end s +:+ white.
Proof.
  unfold trim_end. destruct (trim_start_factor (String.rev s)) as [white Hs].
  exists (String.rev white).
  by rewrite <-rev_app, <-Hs, rev_involutive.
Qed.

Lemma trim_factor s : ∃ left right, s = left +:+ trim s +:+ right.
Proof.
  unfold trim. destruct (trim_start_factor s) as [left Hleft].
  destruct (trim_end_factor (trim_start s)) as [right Hright].
  exists left, right. by rewrite <-Hright.
Qed.

Lemma contains_factor sep s left right :
  contains sep (left +:+ s +:+ right) = false → contains sep s = false.
Proof.
  rewrite !contains_false. intros Hno a b ->. apply (Hno (left +:+ a) (b +:+ right)).
  by rewrite !app_assoc.
Qed.

Lemma contains_trim sep s : contains sep s = false → contains sep (trim s) = false.
Proof.
  intros Hno. destruct (trim_factor s) as (left & right & Hs).
  rewrite Hs in Hno. by eapply contains_factor.
Qed.

(** What comes before the leftmost separator holds no separator. *)
Lemma contains_up_to sep s : sep ≠ "" → contains sep (up_to sep s) = false.
Proof.
  intros Hsep. unfold up_to.
  destruct (cut_at sep s) as [[a b]|] eqn:Hcut.
  - apply contains_false. intros p q ->.
    pose proof (cut_at_Some _ _ _ _ Hcut) as Hs.
    pose proof (cut_at_leftmost _ _ _ _ Hcut p (q +:+ sep +:+ b)) as Hleft.
    rewrite !app_assoc in Hs. specialize (Hleft Hs).
    rewrite !app_length in Hleft. destruct sep; [done|]. simpl in Hleft. lia.
  - unfold contains. by rewrite Hcut.
Qed.

End TrimFacts.

Lemma excerpt_more_of_parsePage (fastmatter : string → obj * string)
    (source filepath : string) (options : parse_options) tag :
  cutTag options = Some tag → tag ≠ "" →
  fieldParsers options !! "excerpt" = None →
  fieldParsers options !! "more" = None →
  let body := renderByType (fastmatter source).2 filepath (renderers options) in
  let document := parsePage fastmatter source filepath options in
  get document "excerpt" = VStr (Str.trim (Str.up_to tag body))
  ∧ get document "more"
    = match Str.cut_at tag body with
      | Some (_, rest) => VStr (Str.trim (Str.up_to tag rest))
      | None => VUndef
      end.
Proof.
  intros Htag Hnonempty Hexcerpt Hmore. unfold parsePage, get.
  destruct (fastmatter source) as [attributes body]. cbn [snd].
  rewrite !lookup_parseCustomFields by done.
  rewrite lookup_extended_excerpt, lookup_extended_more.
  cbn [from_option id]. rewrite Htag, decide_False by done.
  rewrite CutFacts.split_first, CutFacts.split_second by done.
  split; [by rewrite and_trim_string|].
  destruct (Str.cut_at tag _) as [[? rest]|]; [|done].
  by rewrite and_trim_string.
Qed.

(** X4. When a cut marker is configured, neither the excerpt nor the rest of the
    page holds the marker. *)
Theorem parsePage_pieces_without_marker (fastmatter : string → obj * string)
    (source filepath : string) (options : parse_options) tag piece text :
  cutTag options = Some tag → tag ≠ "" →
  fieldParsers options !! "excerpt" = None →
  fieldParsers options !! "more" = None →
  piece = "excerpt" ∨ piece = "more" →
  get (parsePage fastmatter source filepath options) piece = VStr text →
  Str.contains tag text = false.
Proof.
  intros Htag Hnonempty Hexcerpt Hmore Hpiece.
  destruct (excerpt_more_of_parsePage fastmatter source filepath options tag
              Htag Hnonempty Hexcerpt Hmore) as [Hfirst Hsecond].
  destruct Hpiece as [-> | ->].
  - rewrite Hfirst. intros [= <-].
    by apply TrimFacts.contains_trim, TrimFacts.contains_up_to.
  - rewrite Hsecond. destruct (Str.cut_at tag _) as [[? rest]|]; [|done].
    intros [= <-]. by apply TrimFacts.contains_trim, TrimFacts.contains_up_to.
Qed.

Lemma parsePage_pieces_without_marker_witness :
  get (parsePage plain_fastmatter "a<!--more--> b <!--more-->c" "post.md"
         cut_options) "more" = VStr "b"
  ∧ Str.contains "<!--more-->" "b" = false.
Proof.
  split; [reflexivity|].
  apply (parsePage_pieces_without_marker plain_fastmatter
           "a<!--more--> b <!--more-->c" "post.md" cut_options "<!--more-->"
           "more" "b" eq_refl ltac:(done) eq_refl eq_refl);
    [by right|reflexivity].
Defined.

Lemma getPageNumberUrl_collapses_witness :
  Str.contains "//" "/blog/" = false
  ∧ Str.contains "//" (getPageNumberUrl "/blog/" 2 false) = false.
Proof.
  split; [reflexivity|].
  exact (getPageNumberUrl_collapses "/blog/" 2 false eq_refl).
Defined.

Lemma filterDocuments_spec_witness :
  tagged_post ∈ filterDocuments posts titled_a.
Proof.
  apply (proj2 (filterDocuments_spec posts titled_a) tagged_post).
  split; [by left|]. unfold titled_a.
  intros field by_ [<- <-]%lookup_singleton_Some. by vm_compute.
Defined.

Lemma generatePages_spec_witness :
  generatePages echo_rss [about_page; no_layout_page] VNull ∅ echo_renderers
  = Throw (ConfigError ("Layout not specified for about.md. Add "
                        +:+ quoted "layout" +:+ " front matter field.")).
Proof.
  apply (proj2 (generatePages_spec echo_rss VNull ∅
                  [about_page; no_layout_page] echo_renderers)).
  exists [about_page], no_layout_page, []. split_and!; [reflexivity| |reflexivity].
  constructor; [|constructor]. by eexists.
Defined.
